(** * pycalc-tk: the calculation engine of [pycalc_tk/core.py]

    A shallow embedding of the expression evaluator, the memory register,
    the precision switch and the result formatter, together with the part
    of Python's [decimal] and [ast] modules that they call.

    Conventions.
    - A Python [str] is the list of its code points ([pystr]).
    - A [Decimal] is a sign, a coefficient and an exponent, or one of the
      special values; arithmetic follows the General Decimal Arithmetic
      rules implemented by the [decimal] module, under a context that holds
      the precision and the rounding mode.  Contexts keep the library's
      default exponent range and its default traps (InvalidOperation,
      DivisionByZero, Overflow); status flags are not recorded.
    - A raised exception is a value of [result]; its class and, for the
      messages written in [core.py], its text are kept.
    - The module body of [core.py] is taken as executed: precision 1000,
      ROUND_HALF_EVEN.  (As written, line 39 names [decimal] two lines
      before [import decimal] binds it.)
    - The [match] statement of [_eval_node] needs Python 3.10 or later; up
      to 3.13 the [ast.Num] case is shadowed by the [ast.Constant] case. *)

From Stdlib Require Import ZArith NArith List String Ascii Bool Lia.
Import ListNotations.
Local Open Scope Z_scope.

(** ** Strings *)

Definition pystr := list N.

Definition py (s : string) : pystr := map N_of_ascii (list_ascii_of_string s).

Definition pystr_eqb (a b : pystr) : bool :=
  if list_eq_dec N.eq_dec a b then true else false.

(** [str.isspace] on one code point: the characters [str.strip()] removes. *)
Definition py_isspace (c : N) : bool :=
  ((9 <=? c) && (c <=? 13) || (28 <=? c) && (c <=? 32) || (c =? 133) ||
   (c =? 160) || (c =? 5760) || (8192 <=? c) && (c <=? 8202) ||
   (c =? 8232) || (c =? 8233) || (c =? 8239) || (c =? 8287) ||
   (c =? 12288))%N.

Fixpoint lstrip (s : pystr) : pystr :=
  match s with
  | c :: r => if py_isspace c then lstrip r else s
  | [] => []
  end.

Definition rstrip (s : pystr) : pystr := rev (lstrip (rev s)).

(** [s.strip()] *)
Definition strip (s : pystr) : pystr := rstrip (lstrip s).

(** [s.rstrip(ch)] for a one-character argument *)
Fixpoint lstrip_char (ch : N) (s : pystr) : pystr :=
  match s with
  | c :: r => if (c =? ch)%N then lstrip_char ch r else s
  | [] => []
  end.

Definition rstrip_char (ch : N) (s : pystr) : pystr :=
  rev (lstrip_char ch (rev s)).

(** [ch in s] *)
Definition contains (ch : N) (s : pystr) : bool := existsb (N.eqb ch) s.

(** ** Exceptions *)

Inductive exn_class :=
| ValueError | TypeError | NameError | SyntaxError | ZeroDivisionError
| OverflowError
| InvalidOperation | DivisionByZero | Overflow.   (* decimal signals *)

(** The text of an exception: written in [core.py], or produced by the
    interpreter or the library. *)
Inductive message :=
| Msg (text : pystr)
| LibraryMsg.

Record exn := Exn { exn_class_of : exn_class; exn_message : message }.

Inductive result (A : Type) :=
| Return (a : A)
| Raise (e : exn).
Arguments Return {A} a.
Arguments Raise {A} e.

Definition bind {A B} (r : result A) (k : A -> result B) : result B :=
  match r with
  | Return a => k a
  | Raise e => Raise e
  end.

Notation "x <- r ;; k" := (bind r (fun x => k))
  (at level 61, r at next level, right associativity).

Definition raise_lib {A} (c : exn_class) : result A := Raise (Exn c LibraryMsg).
Definition raise_msg {A} (c : exn_class) (m : string) : result A :=
  Raise (Exn c (Msg (py m))).

(** ** Decimal digits *)

(** [10**k] for [k >= 0]; appending ['0'*k] to a digit string multiplies by
    it, and for [k < 0] appends nothing. *)
Definition pow10 (k : Z) : N := Z.to_N (10 ^ Z.max 0 k).

Fixpoint ndigits_fuel (fuel : nat) (n : N) : Z :=
  match fuel with
  | O => 1
  | S f => if (n <? 10)%N then 1 else 1 + ndigits_fuel f (n / 10)%N
  end.

(** [len(str(n))] *)
Definition ndigits (n : N) : Z := ndigits_fuel (N.to_nat (N.log2 n)) n.

Definition digit_char (d : N) : N := (48 + d)%N.

Fixpoint digits_fuel (fuel : nat) (n : N) (acc : pystr) : pystr :=
  match fuel with
  | O => digit_char n :: acc
  | S f => if (n <? 10)%N then digit_char n :: acc
           else digits_fuel f (n / 10)%N (digit_char (n mod 10)%N :: acc)
  end.

(** [str(n)] for a nonnegative integer *)
Definition str_of_N (n : N) : pystr := digits_fuel (N.to_nat (N.log2 n)) n [].

(** [str(n)] for an integer *)
Definition str_of_Z (z : Z) : pystr :=
  if z <? 0 then 45%N :: str_of_N (Z.abs_N z) else str_of_N (Z.abs_N z).

(** ['0' * k] *)
Definition zeros (k : Z) : pystr := repeat 48%N (Z.to_nat k).

(** ** Decimal values and contexts *)

Inductive Decimal :=
| Finite (sign : bool) (coeff : N) (exp : Z)
| Infinity (sign : bool)
| NaN (sign : bool) (signaling : bool) (payload : N).

Inductive rounding_mode :=
| ROUND_DOWN | ROUND_UP | ROUND_HALF_UP | ROUND_HALF_DOWN | ROUND_HALF_EVEN
| ROUND_CEILING | ROUND_FLOOR | ROUND_05UP.

Record Context := mkContext { prec : Z; rounding : rounding_mode }.

Definition Emax : Z := 999999.
Definition Emin : Z := -999999.
Definition MAX_PREC : Z := 999999999999999999.
Definition Etiny (ctx : Context) : Z := Emin - prec ctx + 1.
Definition Etop (ctx : Context) : Z := Emax - prec ctx + 1.

(** [Context(prec=p, rounding=r)] *)
Definition new_Context (p : Z) (r : rounding_mode) : result Context :=
  if (1 <=? p) && (p <=? MAX_PREC) then Return (mkContext p r)
  else raise_lib ValueError.

Definition is_zero (d : Decimal) : bool :=
  match d with
  | Finite _ c _ => (c =? 0)%N
  | _ => false
  end.

Definition is_special (d : Decimal) : bool :=
  match d with
  | Finite _ _ _ => false
  | _ => true
  end.

Definition sign_of (d : Decimal) : bool :=
  match d with
  | Finite s _ _ | Infinity s | NaN s _ _ => s
  end.

Definition copy_abs (d : Decimal) : Decimal :=
  match d with
  | Finite _ c e => Finite false c e
  | Infinity _ => Infinity false
  | NaN _ sg p => NaN false sg p
  end.

Definition copy_negate (d : Decimal) : Decimal :=
  match d with
  | Finite s c e => Finite (negb s) c e
  | Infinity s => Infinity (negb s)
  | NaN s sg p => NaN (negb s) sg p
  end.

(** [self.adjusted()] of a finite value *)
Definition adjusted (c : N) (e : Z) : Z := e + ndigits c - 1.

(** *** Rounding *)

(** The rounding functions look at the digit string cut after [prec]
    digits: [q] is the kept part, [r] the cut part, [k] its length. *)
Definition round_down (r : N) : Z := if (r =? 0)%N then 0 else -1.

Definition round_half_up (r : N) (k : Z) : Z :=
  if (pow10 k <=? 2 * r)%N then 1 else round_down r.

Definition exact_half (r : N) (k : Z) : bool := (2 * r =? pow10 k)%N.

Definition pick_rounding_function (m : rounding_mode) (s : bool) (q r : N) (k : Z)
  : Z :=
  match m with
  | ROUND_DOWN => round_down r
  | ROUND_UP => - round_down r
  | ROUND_HALF_UP => round_half_up r k
  | ROUND_HALF_DOWN => if exact_half r k then -1 else round_half_up r k
  | ROUND_HALF_EVEN =>
      if exact_half r k && N.even q then -1 else round_half_up r k
  | ROUND_CEILING => if s then round_down r else - round_down r
  | ROUND_FLOOR => if s then - round_down r else round_down r
  | ROUND_05UP =>
      if negb ((q mod 10 =? 0) || (q mod 10 =? 5))%N then round_down r
      else - round_down r
  end.

(** [self._fix_nan(context)] *)
Definition _fix_nan (ctx : Context) (s sg : bool) (p : N) : Decimal :=
  if ndigits p >? prec ctx then NaN s sg (p mod pow10 (prec ctx))%N
  else NaN s sg p.

(** [self._fix(context)] *)
Definition _fix (ctx : Context) (d : Decimal) : result Decimal :=
  match d with
  | NaN s sg p => Return (_fix_nan ctx s sg p)
  | Infinity _ => Return d
  | Finite s c e =>
      if (c =? 0)%N then Return (Finite s 0 (Z.min (Z.max e (Etiny ctx)) Emax))
      else
        let exp_min := ndigits c + e - prec ctx in
        if exp_min >? Etop ctx then raise_lib Overflow
        else
          let exp_min := Z.max exp_min (Etiny ctx) in
          if e <? exp_min then
            let digits := ndigits c + e - exp_min in
            let c1 := if digits <? 0 then 1%N else c in
            let digits := if digits <? 0 then 0 else digits in
            let k := ndigits c1 - digits in
            let q := (c1 / pow10 k)%N in
            let r := (c1 mod pow10 k)%N in
            let changed := pick_rounding_function (rounding ctx) s q r k in
            let coeff := if changed >? 0 then (q + 1)%N else q in
            let over := (changed >? 0) && (ndigits coeff >? prec ctx) in
            let coeff := if over then (coeff / 10)%N else coeff in
            let exp_min := if over then exp_min + 1 else exp_min in
            if exp_min >? Etop ctx then raise_lib Overflow
            else Return (Finite s coeff exp_min)
          else Return d
  end.

(** [self._rescale(exp, rounding)] *)
Definition _rescale (d : Decimal) (exp : Z) (m : rounding_mode) : Decimal :=
  match d with
  | Finite s c e =>
      if (c =? 0)%N then Finite s 0 exp
      else if e >=? exp then Finite s (c * pow10 (e - exp))%N exp
      else
        let digits := ndigits c + e - exp in
        let c1 := if digits <? 0 then 1%N else c in
        let digits := if digits <? 0 then 0 else digits in
        let k := ndigits c1 - digits in
        let q := (c1 / pow10 k)%N in
        let r := (c1 mod pow10 k)%N in
        let changed := pick_rounding_function m s q r k in
        Finite s (if changed =? 1 then (q + 1)%N else q) exp
  | _ => d
  end.

(** ** Constructing a Decimal *)

Definition MAX_EMAX : Z := 999999999999999999.
Definition MIN_ETINY : Z := -1999999999999999997.

(** The code points of the digit zero of each decimal-digit block of
    Unicode 14 (Python 3.11); each is followed by its digits 1 to 9. *)
Definition decimal_zeros : list N :=
  [48; 1632; 1776; 1984; 2406; 2534; 2662; 2790; 2918; 3046; 3174; 3302;
   3430; 3558; 3664; 3792; 3872; 4160; 4240; 6112; 6160; 6470; 6608; 6784;
   6800; 6992; 7088; 7232; 7248; 42528; 43216; 43264; 43472; 43504; 43600;
   44016; 65296; 66720; 68912; 69734; 69872; 69942; 70096; 70384; 70736;
   70864; 71248; 71360; 71472; 71904; 72016; 72784; 73040; 73120; 92768;
   92864; 93008; 120782; 120792; 120802; 120812; 120822; 123200; 123632;
   125264; 130032]%N.

(** The decimal digit value of a code point, if it is a digit. *)
Definition digit_value (c : N) : option N :=
  match find (fun z => (z <=? c) && (c <? z + 10))%N decimal_zeros with
  | Some z => Some (c - z)%N
  | None => None
  end.

(** Digits and whitespace are brought to ASCII; any other character outside
    ASCII makes the string no numeral. *)
Fixpoint numeric_as_ascii (s : pystr) : option pystr :=
  match s with
  | [] => Some []
  | c :: r =>
      match numeric_as_ascii r with
      | None => None
      | Some r' =>
          if (0 <? c) && (c <=? 127) then Some (c :: r')
          else if py_isspace c then Some (32 :: r')
          else match digit_value c with
               | Some d => Some (digit_char d :: r')
               | None => None
               end
      end%N
  end.

Definition is_ascii_digit (c : N) : bool := ((48 <=? c) && (c <=? 57))%N.

Fixpoint span_digits (s : pystr) : list N * pystr :=
  match s with
  | c :: r =>
      if is_ascii_digit c
      then let '(ds, rest) := span_digits r in ((c - 48)%N :: ds, rest)
      else ([], s)
  | [] => ([], [])
  end.

(** [int(digits)] *)
Definition N_of_digits (ds : list N) : N :=
  fold_left (fun acc d => (10 * acc + d)%N) ds 0%N.

Definition to_lower (c : N) : N :=
  if ((65 <=? c) && (c <=? 90))%N then (c + 32)%N else c.

Definition len (s : pystr) : Z := Z.of_nat (List.length s).

(** The exponent part of a numeral: empty, or [e], an optional sign and at
    least one digit. *)
Definition parse_exponent (s : pystr) : option Z :=
  match s with
  | [] => Some 0
  | c :: r =>
      if (to_lower c =? 101)%N then
        let '(neg, r1) :=
          match r with
          | 45%N :: r' => (true, r')
          | 43%N :: r' => (false, r')
          | _ => (false, r)
          end in
        match span_digits r1 with
        | (d :: ds, []) =>
            let n := Z.of_N (N_of_digits (d :: ds)) in
            Some (if neg then - n else n)
        | _ => None
        end
      else None
  end.

Definition parse_finite (sgn : bool) (s : pystr) : option Decimal :=
  let '(ip, r1) := span_digits s in
  let '(fp, r2) :=
    match r1 with
    | 46%N :: r' => span_digits r'
    | _ => ([], r1)
    end in
  match ip ++ fp with
  | [] => None
  | ds =>
      match parse_exponent r2 with
      | Some x =>
          let c := N_of_digits ds in
          let e := x - Z.of_nat (List.length fp) in
          if (MIN_ETINY <=? e) && (adjusted c e <=? MAX_EMAX)
          then Some (Finite sgn c e) else None
      | None => None
      end
  end.

Definition parse_nan (sgn sg : bool) (s : pystr) : option Decimal :=
  match span_digits s with
  | (ds, []) => Some (NaN sgn sg (N_of_digits ds))
  | _ => None
  end.

Definition parse_decimal (s : pystr) : option Decimal :=
  let '(sgn, r) :=
    match s with
    | 45%N :: r' => (true, r')
    | 43%N :: r' => (false, r')
    | _ => (false, s)
    end in
  let l := map to_lower r in
  if pystr_eqb l (py "inf") || pystr_eqb l (py "infinity") then Some (Infinity sgn)
  else
    match l with
    | 110%N :: 97%N :: 110%N :: p => parse_nan sgn false p
    | 115%N :: 110%N :: 97%N :: 110%N :: p => parse_nan sgn true p
    | _ => parse_finite sgn r
    end.

(** [Decimal(s)] for a string, under a context that traps InvalidOperation *)
Definition Decimal_of_str (s : pystr) : result Decimal :=
  let s1 := filter (fun c => negb (c =? 95)%N) (strip s) in
  match numeric_as_ascii s1 with
  | Some a =>
      match parse_decimal a with
      | Some d => Return d
      | None => raise_lib InvalidOperation
      end
  | None => raise_lib InvalidOperation
  end.

(** [Decimal(n)] for an integer *)
Definition Decimal_of_int (n : Z) : Decimal := Finite (n <? 0) (Z.abs_N n) 0.

(** ** Comparison *)

(** [self._check_nans(other, context)]: [None] when neither is a NaN *)
Definition _check_nans (ctx : Context) (a b : Decimal) : option (result Decimal) :=
  match a, b with
  | NaN _ true _, _ => Some (raise_lib InvalidOperation)
  | _, NaN _ true _ => Some (raise_lib InvalidOperation)
  | NaN s sg p, _ => Some (Return (_fix_nan ctx s sg p))
  | _, NaN s sg p => Some (Return (_fix_nan ctx s sg p))
  | _, _ => None
  end.

Definition _check_nans1 (ctx : Context) (a : Decimal) : option (result Decimal) :=
  match a with
  | NaN _ true _ => Some (raise_lib InvalidOperation)
  | NaN s sg p => Some (Return (_fix_nan ctx s sg p))
  | _ => None
  end.

Definition _isinfinity (d : Decimal) : Z :=
  match d with
  | Infinity s => if s then -1 else 1
  | _ => 0
  end.

Definition sign_factor (s : bool) : Z := if s then -1 else 1.

(** [self._cmp(other)] for two values that are not NaN *)
Definition _cmp (a b : Decimal) : Z :=
  match a, b with
  | Finite s1 c1 e1, Finite s2 c2 e2 =>
      if (c1 =? 0)%N then
        if (c2 =? 0)%N then 0 else - sign_factor s2
      else if (c2 =? 0)%N then sign_factor s1
      else if negb s1 && s2 then 1
      else if s1 && negb s2 then -1
      else
        let a1 := adjusted c1 e1 in
        let a2 := adjusted c2 e2 in
        if a1 =? a2 then
          let p1 := (c1 * pow10 (e1 - e2))%N in
          let p2 := (c2 * pow10 (e2 - e1))%N in
          if (p1 =? p2)%N then 0
          else if (p1 <? p2)%N then - sign_factor s1 else sign_factor s1
        else if a1 >? a2 then sign_factor s1 else - sign_factor s1
  | _, _ =>
      let i1 := _isinfinity a in
      let i2 := _isinfinity b in
      if i1 =? i2 then 0 else if i1 <? i2 then -1 else 1
  end.

(** [self == other] *)
Definition dec_eq (ctx : Context) (a b : Decimal) : result bool :=
  match _check_nans ctx a b with
  | Some (Raise e) => Raise e
  | Some (Return _) => Return false
  | None => Return (_cmp a b =? 0)
  end.

(** ** Arithmetic *)

Definition is_floor (m : rounding_mode) : bool :=
  match m with ROUND_FLOOR => true | _ => false end.

(** [_normalize(op1, op2, prec)]: both coefficients at a common exponent *)
Definition _normalize (c1 : N) (e1 : Z) (c2 : N) (e2 : Z) (p : Z) : N * N * Z :=
  let swap := e1 <? e2 in
  let '(tc, te, oc, oe) := if swap then (c2, e2, c1, e1) else (c1, e1, c2, e2) in
  let exp := te + Z.min (-1) (ndigits tc - p - 2) in
  let '(oc, oe) := if ndigits oc + oe - 1 <? exp then (1%N, exp) else (oc, oe) in
  let tc := (tc * pow10 (te - oe))%N in
  if swap then (oc, tc, oe) else (tc, oc, oe).

(** [self + other] *)
Definition dec_add (ctx : Context) (a b : Decimal) : result Decimal :=
  match _check_nans ctx a b with
  | Some r => r
  | None =>
      match a, b with
      | Infinity s1, Infinity s2 =>
          if xorb s1 s2 then raise_lib InvalidOperation else Return a
      | Infinity _, _ => Return a
      | _, Infinity _ => Return b
      | Finite s1 c1 e1, Finite s2 c2 e2 =>
          let exp := Z.min e1 e2 in
          let negativezero := is_floor (rounding ctx) && xorb s1 s2 in
          if (c1 =? 0)%N && (c2 =? 0)%N then
            _fix ctx (Finite ((s1 && s2) || negativezero) 0 exp)
          else if (c1 =? 0)%N then
            _fix ctx (_rescale b (Z.max exp (e2 - prec ctx - 1)) (rounding ctx))
          else if (c2 =? 0)%N then
            _fix ctx (_rescale a (Z.max exp (e1 - prec ctx - 1)) (rounding ctx))
          else
            let '(i1, i2, ex) := _normalize c1 e1 c2 e2 (prec ctx) in
            if xorb s1 s2 then
              if (i1 =? i2)%N then _fix ctx (Finite negativezero 0 exp)
              else if (i1 <? i2)%N then _fix ctx (Finite s2 (i2 - i1) ex)
              else _fix ctx (Finite s1 (i1 - i2) ex)
            else _fix ctx (Finite s1 (i1 + i2) ex)
      | _, _ => Return a
      end
  end.

(** [self - other] *)
Definition dec_sub (ctx : Context) (a b : Decimal) : result Decimal :=
  match _check_nans ctx a b with
  | Some r => r
  | None => dec_add ctx a (copy_negate b)
  end.

(** [self * other] *)
Definition dec_mul (ctx : Context) (a b : Decimal) : result Decimal :=
  match _check_nans ctx a b with
  | Some r => r
  | None =>
      let rs := xorb (sign_of a) (sign_of b) in
      match a, b with
      | Infinity _, _ =>
          if is_zero b then raise_lib InvalidOperation else Return (Infinity rs)
      | _, Infinity _ =>
          if is_zero a then raise_lib InvalidOperation else Return (Infinity rs)
      | Finite _ c1 e1, Finite _ c2 e2 => _fix ctx (Finite rs (c1 * c2) (e1 + e2))
      | _, _ => Return a
      end
  end.

(** The loop [while exp < ideal_exp and coeff % 10 == 0] *)
Fixpoint strip_zeros_to (fuel : nat) (coeff : N) (exp ideal : Z) : N * Z :=
  match fuel with
  | O => (coeff, exp)
  | S f =>
      if (exp <? ideal) && (coeff mod 10 =? 0)%N
      then strip_zeros_to f (coeff / 10)%N (exp + 1) ideal
      else (coeff, exp)
  end.

(** [self / other] *)
Definition dec_div (ctx : Context) (a b : Decimal) : result Decimal :=
  match _check_nans ctx a b with
  | Some r => r
  | None =>
      let sign := xorb (sign_of a) (sign_of b) in
      match a, b with
      | Infinity _, Infinity _ => raise_lib InvalidOperation
      | Infinity _, _ => Return (Infinity sign)
      | _, Infinity _ => Return (Finite sign 0 (Etiny ctx))
      | Finite _ c1 e1, Finite _ c2 e2 =>
          if (c2 =? 0)%N then
            if (c1 =? 0)%N then raise_lib InvalidOperation
            else raise_lib DivisionByZero
          else if (c1 =? 0)%N then _fix ctx (Finite sign 0 (e1 - e2))
          else
            let shift := ndigits c2 - ndigits c1 + prec ctx + 1 in
            let exp := e1 - e2 - shift in
            let num := if shift >=? 0 then (c1 * pow10 shift)%N else c1 in
            let den := if shift >=? 0 then c2 else (c2 * pow10 (- shift))%N in
            let coeff := (num / den)%N in
            let remainder := (num mod den)%N in
            if negb (remainder =? 0)%N then
              _fix ctx (Finite sign (if (coeff mod 5 =? 0)%N then coeff + 1 else coeff) exp)
            else
              let '(coeff, exp) :=
                strip_zeros_to (Z.to_nat (e1 - e2 - exp)) coeff exp (e1 - e2) in
              _fix ctx (Finite sign coeff exp)
      | _, _ => Return a
      end
  end.

(** The remainder of [self._divide(other, context)] *)
Definition _divide_rem (ctx : Context) (a b : Decimal) : result Decimal :=
  match a, b with
  | Finite s1 c1 e1, Infinity _ => Return (_rescale a e1 (rounding ctx))
  | Finite s1 c1 e1, Finite s2 c2 e2 =>
      let ideal_exp := Z.min e1 e2 in
      let expdiff := adjusted c1 e1 - adjusted c2 e2 in
      if (c1 =? 0)%N || (expdiff <=? -2) then
        Return (_rescale a ideal_exp (rounding ctx))
      else if expdiff <=? prec ctx then
        let i1 := (c1 * pow10 (e1 - e2))%N in
        let i2 := (c2 * pow10 (e2 - e1))%N in
        if (i1 / i2 <? pow10 (prec ctx))%N
        then Return (Finite s1 (i1 mod i2)%N ideal_exp)
        else raise_lib InvalidOperation
      else raise_lib InvalidOperation
  | _, _ => Return a
  end.

(** [self % other] *)
Definition dec_mod (ctx : Context) (a b : Decimal) : result Decimal :=
  match _check_nans ctx a b with
  | Some r => r
  | None =>
      match a with
      | Infinity _ => raise_lib InvalidOperation
      | _ =>
          if is_zero b then raise_lib InvalidOperation
          else r <- _divide_rem ctx a b ;; _fix ctx r
      end
  end.

(** [-self] *)
Definition dec_neg (ctx : Context) (a : Decimal) : result Decimal :=
  match _check_nans1 ctx a with
  | Some r => r
  | None =>
      if is_zero a && negb (is_floor (rounding ctx)) then _fix ctx (copy_abs a)
      else _fix ctx (copy_negate a)
  end.

(** [int(self)] *)
Definition dec_int (d : Decimal) : result Z :=
  match d with
  | NaN _ _ _ => raise_lib ValueError
  | Infinity _ => raise_lib OverflowError
  | Finite s c e =>
      if e >=? 0 then Return (sign_factor s * Z.of_N (c * pow10 e))
      else Return (sign_factor s * Z.of_N (c / pow10 (- e)))
  end.

(** [self.scaleb(n)] for an integer [n] *)
Definition scaleb (ctx : Context) (d : Decimal) (n : Z) : result Decimal :=
  match _check_nans1 ctx d with
  | Some r => r
  | None =>
      let lim := 2 * (Emax + prec ctx) in
      if negb ((- lim <=? n) && (n <=? lim)) then raise_lib InvalidOperation
      else match d with
           | Finite s c e => _fix ctx (Finite s c (e + n))
           | _ => Return d
           end
  end.

(** [self.quantize(exp)] *)
Definition quantize (ctx : Context) (a q : Decimal) : result Decimal :=
  match _check_nans ctx a q with
  | Some r => r
  | None =>
      match a, q with
      | Infinity _, Infinity _ => Return a
      | Infinity _, _ => raise_lib InvalidOperation
      | _, Infinity _ => raise_lib InvalidOperation
      | Finite s c e, Finite _ _ qe =>
          if negb ((Etiny ctx <=? qe) && (qe <=? Emax)) then raise_lib InvalidOperation
          else if (c =? 0)%N then _fix ctx (Finite s 0 qe)
          else if adjusted c e >? Emax then raise_lib InvalidOperation
          else if adjusted c e - qe + 1 >? prec ctx then raise_lib InvalidOperation
          else
            match _rescale a qe (rounding ctx) with
            | Finite s' c' e' =>
                if adjusted c' e' >? Emax then raise_lib InvalidOperation
                else if ndigits c' >? prec ctx then raise_lib InvalidOperation
                else _fix ctx (Finite s' c' e')
            | d => Return d
            end
      | _, _ => Return a
      end
  end.

(** [self.to_integral_value()] *)
Definition to_integral_value (ctx : Context) (a : Decimal) : result Decimal :=
  match _check_nans1 ctx a with
  | Some r => r
  | None =>
      match a with
      | Finite _ _ e => if e >=? 0 then Return a
                        else Return (_rescale a 0 (rounding ctx))
      | _ => Return a
      end
  end.

(** [self.normalize()] *)
Definition normalize (ctx : Context) (a : Decimal) : result Decimal :=
  match _check_nans1 ctx a with
  | Some r => r
  | None =>
      dup <- _fix ctx a ;;
      match dup with
      | Finite s c e =>
          if (c =? 0)%N then Return (Finite s 0 0)
          else
            let '(c', e') := strip_zeros_to (Z.to_nat (ndigits c)) c e Emax in
            Return (Finite s c' e')
      | _ => Return dup
      end
  end.

(** [self.sqrt()] *)
Definition dec_sqrt (ctx : Context) (a : Decimal) : result Decimal :=
  match _check_nans1 ctx a with
  | Some r => r
  | None =>
      match a with
      | Infinity false => Return a
      | Finite s c e =>
          if (c =? 0)%N then _fix ctx (Finite s 0 (e / 2))
          else if s then raise_lib InvalidOperation
          else
            let p := prec ctx + 1 in
            let odd := Z.odd e in
            let c0 := if odd then (c * 10)%N else c in
            let l := if odd then ndigits c / 2 + 1 else (ndigits c + 1) / 2 in
            let shift := p - l in
            let c1 := if shift >=? 0 then (c0 * pow10 (2 * shift))%N
                      else (c0 / pow10 (-2 * shift))%N in
            let exact0 := if shift >=? 0 then true
                          else (c0 mod pow10 (-2 * shift) =? 0)%N in
            let e1 := e / 2 - shift in
            let n := N.sqrt c1 in
            let exact := exact0 && (n * n =? c1)%N in
            let hf := mkContext (prec ctx) ROUND_HALF_EVEN in
            if exact then
              _fix hf (Finite false
                         (if shift >=? 0 then n / pow10 shift else n * pow10 (- shift))%N
                         (e1 + shift))
            else _fix hf (Finite false (if (n mod 5 =? 0)%N then n + 1 else n)%N e1)
      | _ => raise_lib InvalidOperation
      end
  end.

(** ** Formatting *)

(** [str(d.copy_abs())] for a special value *)
Definition str_special (d : Decimal) : pystr :=
  match d with
  | Infinity _ => py "Infinity"
  | NaN _ sg p =>
      (if sg then py "sNaN" else py "NaN") ++ (if (p =? 0)%N then [] else str_of_N p)
  | Finite _ _ _ => []
  end.

(** [s[:k]] and [s[k:]] for [0 <= k] *)
Definition take (k : Z) (s : pystr) : pystr := firstn (Z.to_nat k) s.
Definition drop (k : Z) (s : pystr) : pystr := skipn (Z.to_nat k) s.

(** [format(d, "f")] *)
Definition format_f (d : Decimal) : pystr :=
  let sign := if sign_of d then py "-" else [] in
  match d with
  | Finite s c e =>
      let digits := str_of_N c in
      (* a zero with a positive exponent is rescaled to exponent 0 *)
      let e := if (c =? 0)%N && (e >? 0) then 0 else e in
      let dotplace := e + len digits in
      let '(intpart, fracpart) :=
        if dotplace <? 0 then (py "0", zeros (- dotplace) ++ digits)
        else if dotplace >? len digits
             then (digits ++ zeros (dotplace - len digits), [])
             else (match take dotplace digits with [] => py "0" | i => i end,
                   drop dotplace digits) in
      sign ++ intpart ++
        (match fracpart with [] => [] | _ => py "." ++ fracpart end)
  | _ => sign ++ str_special d
  end.

(** ** The inexact functions of the library

    [exp], [ln], [log10] and the power function outside its exact cases
    return a rounded approximation computed by the decimal library.  The
    embedding takes those results from a record of functions; everything
    proved about the evaluator holds for every such record. *)

Record InexactOps := {
  inexact_exp : Context -> Decimal -> Decimal + exn_class;
  inexact_ln : Context -> Decimal -> Decimal + exn_class;
  inexact_log10 : Context -> Decimal -> Decimal + exn_class;
  inexact_power : Context -> Decimal -> Decimal -> Decimal + exn_class
}.

(** A library call returns a value or raises with the library's own text. *)
Definition from_library (r : Decimal + exn_class) : result Decimal :=
  match r with
  | inl d => Return d
  | inr c => raise_lib c
  end.

(** An instance for closed examples; it refuses every request.  The
    examples stated with it never reach an inexact function. *)
Definition refusing : InexactOps :=
  {| inexact_exp := fun _ _ => inr InvalidOperation;
     inexact_ln := fun _ _ => inr InvalidOperation;
     inexact_log10 := fun _ _ => inr InvalidOperation;
     inexact_power := fun _ _ _ => inr InvalidOperation |}.

Definition _isinteger (d : Decimal) : bool :=
  match d with
  | Finite _ c e => if e >=? 0 then true else (c mod pow10 (- e) =? 0)%N
  | _ => false
  end.

(** [self._iseven()] for an integer value *)
Definition _iseven (d : Decimal) : bool :=
  match d with
  | Finite _ c e =>
      if (c =? 0)%N || (e >? 0) then true else N.even (c / pow10 (- e))
  | _ => true
  end.

Fixpoint strip_all_zeros (fuel : nat) (c : N) : N :=
  match fuel with
  | O => c
  | S f => if (c mod 10 =? 0)%N then strip_all_zeros f (c / 10)%N else c
  end.

(** The coefficient without its trailing zeros *)
Definition significand (c : N) : N := strip_all_zeros (Z.to_nat (ndigits c)) c.

Definition is_power_of_ten (c : N) : bool := (significand c =? 1)%N.

Section Library.

Variable lib : InexactOps.

(** [self.exp()] *)
Definition dec_exp (ctx : Context) (a : Decimal) : result Decimal :=
  match _check_nans1 ctx a with
  | Some r => r
  | None =>
      match a with
      | Infinity true => Return (Finite false 0 0)
      | Infinity false => Return a
      | _ => if is_zero a then Return (Finite false 1 0)
             else from_library (inexact_exp lib ctx a)
      end
  end.

(** [self.ln()] *)
Definition dec_ln (ctx : Context) (a : Decimal) : result Decimal :=
  match _check_nans1 ctx a with
  | Some r => r
  | None =>
      if is_zero a then Return (Infinity true)
      else match a with
           | Infinity false => Return (Infinity false)
           | _ =>
               if _cmp a (Finite false 1 0) =? 0 then Return (Finite false 0 0)
               else if sign_of a then raise_lib InvalidOperation
               else from_library (inexact_ln lib ctx a)
           end
  end.

(** [self.log10()] *)
Definition dec_log10 (ctx : Context) (a : Decimal) : result Decimal :=
  match _check_nans1 ctx a with
  | Some r => r
  | None =>
      if is_zero a then Return (Infinity true)
      else match a with
           | Infinity false => Return (Infinity false)
           | Finite false c e =>
               if is_power_of_ten c
               then _fix (mkContext (prec ctx) ROUND_HALF_EVEN)
                         (Decimal_of_int (adjusted c e))
               else from_library (inexact_log10 lib ctx a)
           | _ => raise_lib InvalidOperation
           end
  end.

(** [self.__pow__(other)].  A positive integer power whose exact value fits
    the precision is that value; the other finite cases are inexact. *)
Definition dec_pow (ctx : Context) (a b : Decimal) : result Decimal :=
  match _check_nans ctx a b with
  | Some r => r
  | None =>
      if is_zero b then
        if is_zero a then raise_lib InvalidOperation else Return (Finite false 1 0)
      else if sign_of a && negb (_isinteger b) && negb (is_zero a)
      then raise_lib InvalidOperation
      else
        let rs := sign_of a && _isinteger b && negb (_iseven b) in
        match copy_abs a with
        | Infinity _ =>
            Return (if sign_of b then Finite rs 0 0 else Infinity rs)
        | Finite _ c e =>
            if (c =? 0)%N then
              Return (if sign_of b then Infinity rs else Finite rs 0 0)
            else if _cmp (Finite false c e) (Finite false 1 0) =? 0 then
              let exp :=
                if _isinteger b then
                  match dec_int b with
                  | Return n =>
                      let multiplier :=
                        if sign_of b then 0
                        else if n >? prec ctx then prec ctx else n in
                      Z.max (e * multiplier) (1 - prec ctx)
                  | Raise _ => 1 - prec ctx
                  end
                else 1 - prec ctx in
              Return (Finite rs (pow10 (- exp)) exp)
            else
              match b with
              | Infinity sb =>
                  Return (if Bool.eqb (negb sb) (adjusted c e <? 0)
                          then Finite rs 0 0 else Infinity rs)
              | _ =>
                  match (if _isinteger b && negb (sign_of b) then dec_int b
                         else raise_lib ValueError) with
                  | Return n =>
                      if ndigits (significand (c ^ Z.to_N n)%N) <=? prec ctx
                      then _fix ctx (Finite rs (c ^ Z.to_N n)%N (e * n))
                      else from_library (inexact_power lib ctx a b)
                  | Raise _ => from_library (inexact_power lib ctx a b)
                  end
              end
        | NaN _ _ _ => Return a
        end
  end.

End Library.

(** ** Syntax trees

    The nodes of Python's [ast] module that [_eval_node] tells apart; every
    other kind of node is [Other]. *)

(** A binary64 value [m * 2^e], as [float] holds it. *)
Inductive float64 :=
| F_finite (m : N) (e : Z)
| F_inf.

(** The values a [Constant] node, or a variable binding, can hold *)
Inductive constant :=
| CInt (n : Z)
| CFloat (f : float64)
| CComplex (imag : float64)
| CStr (s : pystr)
| CBytes (b : list N)
| CBool (b : bool)
| CNone
| CEllipsis
| CDecimal (d : Decimal).

Inductive operator :=
| Add | Sub | Mult | MatMult | Div | Mod | Pow
| LShift | RShift | BitOr | BitXor | BitAnd | FloorDiv.

Inductive unaryop := Invert | Not | UAdd | USub.

#[warnings="-register-all"]
Inductive expr :=
| Constant (value : constant)
| BinOp (left : expr) (op : operator) (right : expr)
| UnaryOp (op : unaryop) (operand : expr)
| Name (id : pystr)
| Call (func : expr) (args : list expr) (keywords : list (option pystr * expr))
| Other (children : list expr).

(** *** Reading a float literal: the binary64 value nearest to [d * 10^x],
    ties to even. *)
Definition float_of_decimal (d : N) (x : Z) : float64 :=
  if (d =? 0)%N then F_finite 0 0
  else
    let num := if x >=? 0 then (d * pow10 x)%N else d in
    let den := if x >=? 0 then 1%N else pow10 (- x) in
    let e0 := Z.of_N (N.log2 num) - Z.of_N (N.log2 den) in
    let ge := if e0 >=? 0 then (den * Z.to_N (2 ^ e0) <=? num)%N
              else (den <=? num * Z.to_N (2 ^ (- e0)))%N in
    let e := if ge then e0 else e0 - 1 in
    let s := Z.max e (-1022) - 52 in
    let n := if s >=? 0 then num else (num * Z.to_N (2 ^ (- s)))%N in
    let dd := if s >=? 0 then (den * Z.to_N (2 ^ s))%N else den in
    let q := (n / dd)%N in
    let r := (n mod dd)%N in
    let q := if (dd <? 2 * r)%N || ((dd =? 2 * r)%N && N.odd q) then (q + 1)%N else q in
    if (q =? 0)%N then F_finite 0 0
    else if Z.of_N (N.log2 q) + s >=? 1024 then F_inf
    else F_finite q s.

(** *** Tokens *)

Inductive token :=
| T_INT (n : Z) | T_FLOAT (f : float64) | T_NAME (s : pystr) | T_STR (s : pystr)
| T_TRUE | T_FALSE | T_NONE
| T_PLUS | T_MINUS | T_STAR | T_SLASH | T_DSLASH | T_PERCENT | T_AT | T_DSTAR
| T_LSHIFT | T_RSHIFT | T_AMP | T_BAR | T_CARET | T_TILDE
| T_LPAR | T_RPAR | T_COMMA | T_EQ.

Definition is_name_start (c : N) : bool :=
  ((65 <=? c) && (c <=? 90) || (97 <=? c) && (c <=? 122) || (c =? 95))%N.

Definition is_name_char (c : N) : bool := is_name_start c || is_ascii_digit c.

Fixpoint span_name (s : pystr) : pystr * pystr :=
  match s with
  | c :: r => if is_name_char c
              then let '(n, rest) := span_name r in (c :: n, rest)
              else ([], s)
  | [] => ([], [])
  end.

(** [digit (["_"] digit)*] *)
Fixpoint span_digitpart (s : pystr) : list N * pystr :=
  match s with
  | c :: r =>
      if is_ascii_digit c then
        match r with
        | 95%N :: (c' :: _) as r' =>
            if is_ascii_digit c'
            then let '(ds, rest) := span_digitpart r' in ((c - 48)%N :: ds, rest)
            else ([(c - 48)%N], r)
        | _ => let '(ds, rest) := span_digitpart r in ((c - 48)%N :: ds, rest)
        end
      else ([], s)
  | [] => ([], [])
  end.

Definition starts_with_digit (s : pystr) : bool :=
  match s with c :: _ => is_ascii_digit c | [] => false end.

(** The exponent of a float literal, if one starts here *)
Definition lex_exponent (s : pystr) : option (Z * pystr) :=
  match s with
  | c :: r =>
      if (to_lower c =? 101)%N then
        let '(neg, r1) :=
          match r with
          | 45%N :: r' => (true, r')
          | 43%N :: r' => (false, r')
          | _ => (false, r)
          end in
        if starts_with_digit r1 then
          let '(ds, rest) := span_digitpart r1 in
          let n := Z.of_N (N_of_digits ds) in
          Some (if neg then - n else n, rest)
        else None
      else None
  | [] => None
  end.

(** A number literal at the head of [s]: decimal integers and floats *)
Definition lex_number (s : pystr) : option (token * pystr) :=
  let '(ip, r) := span_digitpart s in
  let '(is_float, fp, r1) :=
    match r with
    | 46%N :: r' =>
        if starts_with_digit r' then let '(fp, r'') := span_digitpart r' in (true, fp, r'')
        else (true, [], r')
    | _ => (false, [], r)
    end in
  match ip ++ fp with
  | [] => None
  | ds =>
      let '(is_float, x, r2) :=
        match lex_exponent r1 with
        | Some (x, r2) => (true, x, r2)
        | None => (is_float, 0, r1)
        end in
      let follows_ok :=
        match r2 with
        | c :: _ => negb (is_name_char c) && (c <? 128)%N
        | [] => true
        end in
      if negb follows_ok then None
      else if is_float
      then Some (T_FLOAT (float_of_decimal (N_of_digits ds)
                            (x - Z.of_nat (List.length fp))), r2)
      else
        match ip with
        | 0%N :: _ :: _ =>
            if (N_of_digits ip =? 0)%N then Some (T_INT 0, r2) else None
        | _ => Some (T_INT (Z.of_N (N_of_digits ip)), r2)
        end
  end.

Definition keywords_hard : list string :=
  ["and"; "as"; "assert"; "async"; "await"; "break"; "class"; "continue";
   "def"; "del"; "elif"; "else"; "except"; "finally"; "for"; "from";
   "global"; "if"; "import"; "in"; "is"; "lambda"; "nonlocal"; "not"; "or";
   "pass"; "raise"; "return"; "try"; "while"; "with"; "yield"]%string.

Definition lex_name (s : pystr) : option (token * pystr) :=
  let '(n, r) := span_name s in
  let follows_ok :=
    match r with
    | c :: _ => (c <? 128)%N && negb (c =? 39)%N && negb (c =? 34)%N
    | [] => true
    end in
  if negb follows_ok then None
  else if pystr_eqb n (py "True") then Some (T_TRUE, r)
  else if pystr_eqb n (py "False") then Some (T_FALSE, r)
  else if pystr_eqb n (py "None") then Some (T_NONE, r)
  else if existsb (fun k => pystr_eqb n (py k)) keywords_hard then None
  else Some (T_NAME n, r).

Definition is_plain_char (q c : N) : bool :=
  ((32 <=? c) && (c <=? 126) && negb (c =? q) && negb (c =? 92) ||
   (160 <=? c) && (c <? 55296) || (57344 <=? c) && (c <? 65279) ||
   (65280 <=? c) && (c <=? 1114111))%N.

Fixpoint span_string (q : N) (s : pystr) : option (pystr * pystr) :=
  match s with
  | c :: r =>
      if (c =? q)%N then Some ([], r)
      else if is_plain_char q c then
        match span_string q r with
        | Some (body, rest) => Some (c :: body, rest)
        | None => None
        end
      else None
  | [] => None
  end.

(** A one-line string literal without prefix or escapes *)
Definition lex_string (q : N) (s : pystr) : option (token * pystr) :=
  match span_string q s with
  | Some ([], (c :: _) as rest) => if (c =? q)%N then None else Some (T_STR [], rest)
  | Some (body, rest) => Some (T_STR body, rest)
  | None => None
  end.

(** *** The tokenizer.  [depth] counts the open parentheses: a line break
    separates tokens only inside them. *)
Fixpoint tokenize (fuel : nat) (depth : nat) (s : pystr) : option (list token) :=
  match fuel with
  | O => None
  | S f =>
      let emit (t : token) (d : nat) (r : pystr) :=
        match tokenize f d r with
        | Some ts => Some (t :: ts)
        | None => None
        end in
      match s with
      | [] => Some []
      | c :: r =>
          if ((c =? 32) || (c =? 9) || (c =? 12))%N then tokenize f depth r
          else if ((c =? 10) || (c =? 13))%N then
            match depth with O => None | _ => tokenize f depth r end
          else if is_ascii_digit c || ((c =? 46)%N && starts_with_digit r) then
            match lex_number s with
            | Some (t, r') => emit t depth r'
            | None => None
            end
          else if is_name_start c then
            match lex_name s with
            | Some (t, r') => emit t depth r'
            | None => None
            end
          else if ((c =? 39) || (c =? 34))%N then
            match lex_string c r with
            | Some (t, r') => emit t depth r'
            | None => None
            end
          else
            match c, r with
            | 42%N, 42%N :: r' => emit T_DSTAR depth r'
            | 47%N, 47%N :: r' => emit T_DSLASH depth r'
            | 60%N, 60%N :: r' => emit T_LSHIFT depth r'
            | 62%N, 62%N :: r' => emit T_RSHIFT depth r'
            | 61%N, 61%N :: _ => None
            | 43%N, _ => emit T_PLUS depth r
            | 45%N, 62%N :: _ => None
            | 45%N, _ => emit T_MINUS depth r
            | 42%N, _ => emit T_STAR depth r
            | 47%N, _ => emit T_SLASH depth r
            | 37%N, _ => emit T_PERCENT depth r
            | 64%N, _ => emit T_AT depth r
            | 38%N, _ => emit T_AMP depth r
            | 124%N, _ => emit T_BAR depth r
            | 94%N, _ => emit T_CARET depth r
            | 126%N, _ => emit T_TILDE depth r
            | 44%N, _ => emit T_COMMA depth r
            | 61%N, _ => emit T_EQ depth r
            | 40%N, _ => emit T_LPAR (S depth) r
            | 41%N, _ => match depth with
                         | O => None
                         | S d => emit T_RPAR d r
                         end
            | _, _ => None
            end
      end
  end.

(** *** The parser: Python's expression grammar from [bitwise_or] down.
    Levels: 0 [|], 1 [^], 2 [&], 3 shifts, 4 sums, 5 terms, 6 unary
    operators, 7 power, 8 primaries. *)

Definition binop_at (level : nat) (t : token) : option operator :=
  match level, t with
  | 0%nat, T_BAR => Some BitOr
  | 1%nat, T_CARET => Some BitXor
  | 2%nat, T_AMP => Some BitAnd
  | 3%nat, T_LSHIFT => Some LShift
  | 3%nat, T_RSHIFT => Some RShift
  | 4%nat, T_PLUS => Some Add
  | 4%nat, T_MINUS => Some Sub
  | 5%nat, T_STAR => Some Mult
  | 5%nat, T_SLASH => Some Div
  | 5%nat, T_DSLASH => Some FloorDiv
  | 5%nat, T_PERCENT => Some Mod
  | 5%nat, T_AT => Some MatMult
  | _, _ => None
  end.

Definition unaryop_of (t : token) : option unaryop :=
  match t with
  | T_PLUS => Some UAdd
  | T_MINUS => Some USub
  | T_TILDE => Some Invert
  | _ => None
  end.

Definition atom_of (t : token) : option expr :=
  match t with
  | T_INT n => Some (Constant (CInt n))
  | T_FLOAT f => Some (Constant (CFloat f))
  | T_STR s => Some (Constant (CStr s))
  | T_NAME n => Some (Name n)
  | T_TRUE => Some (Constant (CBool true))
  | T_FALSE => Some (Constant (CBool false))
  | T_NONE => Some (Constant CNone)
  | _ => None
  end.

Definition arguments : Type := list expr * list (option pystr * expr).

Fixpoint parse_level (fuel : nat) (level : nat) (ts : list token)
  : option (expr * list token) :=
  match fuel with
  | O => None
  | S f =>
      match level with
      | 6%nat =>
          match ts with
          | t :: r =>
              match unaryop_of t with
              | Some op =>
                  match parse_level f 6 r with
                  | Some (e, r') => Some (UnaryOp op e, r')
                  | None => None
                  end
              | None => parse_level f 7 ts
              end
          | [] => None
          end
      | 7%nat =>
          match parse_level f 8 ts with
          | Some (b, T_DSTAR :: r) =>
              match parse_level f 6 r with
              | Some (e, r') => Some (BinOp b Pow e, r')
              | None => None
              end
          | other => other
          end
      | 8%nat =>
          match ts with
          | T_LPAR :: r =>
              match parse_level f 0 r with
              | Some (e, T_RPAR :: r') => parse_calls f e r'
              | _ => None
              end
          | T_STR _ :: T_STR _ :: _ => None
          | t :: r =>
              match atom_of t with
              | Some e => parse_calls f e r
              | None => None
              end
          | [] => None
          end
      | _ =>
          match parse_level f (S level) ts with
          | Some (lhs, r) => parse_loop f level lhs r
          | None => None
          end
      end
  end
with parse_loop (fuel : nat) (level : nat) (lhs : expr) (ts : list token)
  : option (expr * list token) :=
  match fuel with
  | O => None
  | S f =>
      match ts with
      | t :: r =>
          match binop_at level t with
          | Some op =>
              match parse_level f (S level) r with
              | Some (rhs, r') => parse_loop f level (BinOp lhs op rhs) r'
              | None => None
              end
          | None => Some (lhs, ts)
          end
      | [] => Some (lhs, [])
      end
  end
with parse_calls (fuel : nat) (e : expr) (ts : list token)
  : option (expr * list token) :=
  match fuel with
  | O => None
  | S f =>
      match ts with
      | T_LPAR :: r =>
          match parse_args f false r with
          | Some (a, k, r') => parse_calls f (Call e a k) r'
          | None => None
          end
      | _ => Some (e, ts)
      end
  end
with parse_args (fuel : nat) (seen_kw : bool) (ts : list token)
  : option (list expr * list (option pystr * expr) * list token) :=
  match fuel with
  | O => None
  | S f =>
      match ts with
      | T_RPAR :: r => Some ([], [], r)
      | T_NAME n :: T_EQ :: r =>
          match parse_level f 0 r with
          | Some (v, T_COMMA :: r') =>
              match parse_args f true r' with
              | Some (a, k, r'') => Some (a, (Some n, v) :: k, r'')
              | None => None
              end
          | Some (v, T_RPAR :: r') => Some ([], [(Some n, v)], r')
          | _ => None
          end
      | _ =>
          if seen_kw then None
          else
            match parse_level f 0 ts with
            | Some (v, T_COMMA :: r') =>
                match parse_args f false r' with
                | Some (a, k, r'') => Some (v :: a, k, r'')
                | None => None
                end
            | Some (v, T_RPAR :: r') => Some ([v], [], r')
            | _ => None
            end
      end
  end.

Fixpoint max_open (depth best : nat) (ts : list token) : nat :=
  match ts with
  | T_LPAR :: r => max_open (S depth) (Nat.max best (S depth)) r
  | T_RPAR :: r => max_open (Nat.pred depth) best r
  | _ :: r => max_open depth best r
  | [] => best
  end.

(** [ast.parse(s, mode="eval").body], for the inputs this model reads:
    at most 500 tokens of the grammar above, parentheses nested at most
    100 deep.  [None]: the input is outside the model. *)
Definition ast_parse (s : pystr) : option expr :=
  match tokenize (S (List.length s)) 0 s with
  | Some ts =>
      if (Nat.leb (List.length ts) 500 && Nat.leb (max_open 0 0 ts) 100)%bool then
        match parse_level (12 * List.length ts + 12) 0 ts with
        | Some (e, []) => Some e
        | _ => None
        end
      else None
  | None => None
  end.

(** ** [core.py] *)

Definition _DEFAULT_PRECISION : Z := 1000.

Record EvalSettings := mkEvalSettings {
  precision : Z;
  rounding_of : rounding_mode;
  max_depth : Z
}.

(** [EvalSettings()] *)
Definition default_settings : EvalSettings :=
  mkEvalSettings _DEFAULT_PRECISION ROUND_HALF_EVEN 64.

(** A [dict] with string keys, in insertion order *)
Definition dict := list (pystr * Decimal).

Fixpoint dict_get (k : pystr) (d : dict) : option Decimal :=
  match d with
  | (k', v) :: r => if pystr_eqb k k' then Some v else dict_get k r
  | [] => None
  end.

(** [d[k] = v] *)
Fixpoint dict_set (k : pystr) (v : Decimal) (d : dict) : dict :=
  match d with
  | (k', v') :: r => if pystr_eqb k k' then (k', v) :: r else (k', v') :: dict_set k v r
  | [] => [(k, v)]
  end.

Definition SAFE_CONSTS : dict :=
  [(py "pi", Finite false 314159265358979323846264338327950288419716939937510 (-50));
   (py "e", Finite false 271828182845904523536028747135266249775724709369995 (-50));
   (py "tau", Finite false 628318530717958647692528676655900576839433879875021 (-50))].

(** [set_precision(prec)], acting on the thread's context *)
Definition set_precision (p : Z) (ctx : Context) : result unit * Context :=
  if p <? 16 then (raise_msg ValueError "Precision must be at least 16.", ctx)
  else if p <=? MAX_PREC then (Return tt, mkContext p (rounding ctx))
  else (raise_lib ValueError, ctx).

(** [type(n)] as an f-string prints it *)
Definition type_repr (c : constant) : pystr :=
  py (match c with
      | CInt _ => "<class 'int'>"
      | CFloat _ => "<class 'float'>"
      | CComplex _ => "<class 'complex'>"
      | CStr _ => "<class 'str'>"
      | CBytes _ => "<class 'bytes'>"
      | CBool _ => "<class 'bool'>"
      | CNone => "<class 'NoneType'>"
      | CEllipsis => "<class 'ellipsis'>"
      | CDecimal _ => "<class 'decimal.Decimal'>"
      end).

(** [str(n)] for an [int] (a [bool] is one) or a [str] *)
Definition py_str (c : constant) : pystr :=
  match c with
  | CInt n => str_of_Z n
  | CBool b => if b then py "True" else py "False"
  | CStr s => s
  | _ => []
  end.

Definition _to_decimal (n : constant) : result Decimal :=
  match n with
  | CDecimal d => Return d
  | CInt _ | CBool _ | CStr _ => Decimal_of_str (py_str n)
  | _ => Raise (Exn TypeError (Msg (py "Unsupported literal type: " ++ type_repr n)))
  end.

Section Evaluator.

Variable lib : InexactOps.

(** [_round_decimal(x, ndigits)], under the thread's context *)
Definition _round_decimal (ctx : Context) (x : Decimal) (ndigits : Z) : result Decimal :=
  if ndigits >=? 0 then
    q <- scaleb ctx (Decimal_of_int 1) (- ndigits) ;;
    quantize ctx x q
  else
    q <- scaleb ctx (Decimal_of_int 1) (- ndigits) ;;
    quantize ctx x q.

(** [DecimalEvaluator.allowed_funcs]: the entry for a name, applied to the
    evaluated arguments.  A call with a wrong number of arguments is the
    interpreter's TypeError. *)
Definition allowed_funcs (fname : pystr)
  : option (Context -> list Decimal -> result Decimal) :=
  let unary (f : Context -> Decimal -> result Decimal) :=
    Some (fun ctx dargs =>
            match dargs with
            | [x] => f ctx x
            | _ => raise_lib TypeError
            end) in
  if pystr_eqb fname (py "sqrt") then unary dec_sqrt
  else if pystr_eqb fname (py "ln") then unary (dec_ln lib)
  else if pystr_eqb fname (py "log10") then unary (dec_log10 lib)
  else if pystr_eqb fname (py "exp") then unary (dec_exp lib)
  else if pystr_eqb fname (py "abs") then unary (fun _ x => Return (copy_abs x))
  else if pystr_eqb fname (py "round") then
    Some (fun ctx dargs =>
            match dargs with
            | [x] => n <- dec_int (Decimal_of_int 0) ;; _round_decimal ctx x n
            | [x; n] => n <- dec_int n ;; _round_decimal ctx x n
            | _ => raise_lib TypeError
            end)
  else if pystr_eqb fname (py "pow") then
    Some (fun ctx dargs =>
            match dargs with
            | [x; y] => dec_pow lib ctx x y
            | _ => raise_lib TypeError
            end)
  else None.

Record DecimalEvaluator := mkDecimalEvaluator {
  settings : EvalSettings;
  vars : dict
}.

(** [DecimalEvaluator(settings, variables)] *)
Definition new_DecimalEvaluator (s : EvalSettings) (variables : list (pystr * constant))
  : result DecimalEvaluator :=
  (fix update (vs : list (pystr * constant)) (d : dict) : result DecimalEvaluator :=
     match vs with
     | [] => Return (mkDecimalEvaluator s d)
     | (k, v) :: r => x <- _to_decimal v ;; update r (dict_set k x d)
     end) variables SAFE_CONSTS.

Definition _apply_unary (ctx : Context) (op : unaryop) (val : Decimal) : result Decimal :=
  match op with
  | UAdd => Return val
  | USub => dec_neg ctx val
  | _ => raise_msg SyntaxError "Unsupported unary operator."
  end.

Definition _apply_binop (ctx : Context) (a : Decimal) (op : operator) (b : Decimal)
  : result Decimal :=
  match op with
  | Add => dec_add ctx a b
  | Sub => dec_sub ctx a b
  | Mult => dec_mul ctx a b
  | Div =>
      z <- dec_eq ctx b (Decimal_of_int 0) ;;
      if z then raise_msg ZeroDivisionError "Division by zero."
      else dec_div ctx a b
  | Mod =>
      z <- dec_eq ctx b (Decimal_of_int 0) ;;
      if z then raise_msg ZeroDivisionError "Modulo by zero."
      else dec_mod ctx a b
  | Pow => dec_pow lib ctx a b
  | _ => raise_msg SyntaxError "Unsupported binary operator."
  end.

(** [getattr(f, "id", None)] *)
Definition func_id (f : expr) : option pystr :=
  match f with
  | Name id => Some id
  | _ => None
  end.

Fixpoint _eval_node (self : DecimalEvaluator) (ctx : Context) (node : expr) (depth : Z)
  : result Decimal :=
  if depth >? max_depth (settings self)
  then raise_msg ValueError "Expression too deeply nested."
  else
    match node with
    | Constant v => _to_decimal v
    | BinOp l op r =>
        a <- _eval_node self ctx l (depth + 1) ;;
        b <- _eval_node self ctx r (depth + 1) ;;
        _apply_binop ctx a op b
    | UnaryOp op operand =>
        val <- _eval_node self ctx operand (depth + 1) ;;
        _apply_unary ctx op val
    | Name name =>
        match dict_get name (vars self) with
        | Some d => Return d
        | None => Raise (Exn NameError (Msg (py "Unknown identifier: " ++ name)))
        end
    | Call f args kwargs =>
        match kwargs with
        | _ :: _ => raise_msg ValueError "Keyword arguments are not supported."
        | [] =>
            let unsupported (n : pystr) :=
              Raise (Exn NameError (Msg (py "Unsupported function: " ++ n))) in
            match func_id f with
            | None => unsupported (py "None")
            | Some fname =>
                match allowed_funcs fname with
                | None => unsupported fname
                | Some fn =>
                    dargs <-
                      (fix eval_args (l : list expr) : result (list Decimal) :=
                         match l with
                         | [] => Return []
                         | a :: r =>
                             x <- _eval_node self ctx a (depth + 1) ;;
                             xs <- eval_args r ;;
                             Return (x :: xs)
                         end) args ;;
                    fn ctx dargs
                end
            end
        end
    | Other _ => raise_msg SyntaxError "Unsupported syntax in expression."
    end.

(** [DecimalEvaluator.eval(expr)]: the thread's context is replaced for the
    duration of the [with] block and restored when it is left. *)
Definition eval (self : DecimalEvaluator) (expr : pystr) (thread : Context)
  : option (result Decimal) * Context :=
  match new_Context (precision (settings self)) (rounding_of (settings self)) with
  | Raise e => (Some (Raise e), thread)
  | Return c =>
      let saved := thread in
      let thread := c in
      let r := match ast_parse expr with
               | Some body => Some (_eval_node self thread body 0)
               | None => None
               end in
      let thread := saved in
      (r, thread)
  end.

End Evaluator.

(** *** The memory register *)

Record Memory := mkMemory { value : Decimal }.

Definition Memory_clear (m : Memory) : Memory := mkMemory (Decimal_of_int 0).

Definition Memory_recall (m : Memory) : Decimal := value m.

(** [self.value += x], under the thread's context; the register keeps its
    value when the addition raises. *)
Definition Memory_add (ctx : Context) (x : Decimal) (m : Memory) : result unit * Memory :=
  match dec_add ctx (value m) x with
  | Return v => (Return tt, mkMemory v)
  | Raise e => (Raise e, m)
  end.


(** *** The engine *)

Record CalculatorEngine := mkEngine {
  engine_settings : EvalSettings;
  memory : Memory
}.

(** [CalculatorEngine(settings)] *)
Definition new_engine (s : option EvalSettings) : CalculatorEngine :=
  mkEngine (match s with Some s => s | None => default_settings end)
           (mkMemory (Decimal_of_int 0)).

(** The engine together with the thread's decimal context *)
Record World := mkWorld {
  engine : CalculatorEngine;
  context : Context
}.

(** The state after the module is loaded and an engine is made *)
Definition initial_world : World :=
  mkWorld (new_engine None) (mkContext _DEFAULT_PRECISION ROUND_HALF_EVEN).

(** [CalculatorEngine.format_decimal(x)], under the thread's context *)
Definition format_decimal (ctx : Context) (x : Decimal) : result pystr :=
  normalized <- normalize ctx x ;;
  t <- to_integral_value ctx normalized ;;
  c <- dec_eq ctx normalized t ;;
  let s := if c then format_f normalized else format_f normalized in
  let s := if contains 46 s then rstrip_char 46 (rstrip_char 48 s) else s in
  Return (match s with [] => py "0" | _ => s end).

(** [CalculatorEngine.evaluate(expr)].  The first component is [None] when
    the expression is outside the parser model. *)
Definition evaluate (lib : InexactOps) (expr : pystr) (w : World)
  : option (result pystr) * World :=
  let expr := strip expr in
  match expr with
  | [] => (Some (Return []), w)
  | _ =>
      match new_DecimalEvaluator (engine_settings (engine w))
              [(py "M", CDecimal (Memory_recall (memory (engine w))))] with
      | Raise e => (Some (Raise e), w)
      | Return evaluator =>
          let '(r, thread) := eval lib evaluator expr (context w) in
          let w := mkWorld (engine w) thread in
          match r with
          | None => (None, w)
          | Some (Raise e) => (Some (Raise e), w)
          | Some (Return result) => (Some (format_decimal (context w) result), w)
          end
      end
  end.

(** ** Named states, errors and shapes used in the statements *)

Definition default_context : Context := mkContext _DEFAULT_PRECISION ROUND_HALF_EVEN.

(** A default engine whose register holds [m], in the module's context *)
Definition world_with (m : Decimal) : World :=
  mkWorld (mkEngine default_settings (mkMemory m)) default_context.


Definition float_rejected : exn :=
  Exn TypeError (Msg (py "Unsupported literal type: <class 'float'>")).

Definition nesting_too_deep : exn :=
  Exn ValueError (Msg (py "Expression too deeply nested.")).

Definition division_by_zero : exn :=
  Exn ZeroDivisionError (Msg (py "Division by zero.")).

Definition modulo_by_zero : exn :=
  Exn ZeroDivisionError (Msg (py "Modulo by zero.")).

Definition invalid_precision : exn :=
  Exn ValueError (Msg (py "Precision must be at least 16.")).

(** [n] opening parentheses, [s], [n] closing parentheses *)
Definition parenthesized (n : nat) (s : pystr) : pystr :=
  repeat 40%N n ++ s ++ repeat 41%N n.

(** [n] unary minus signs applied to [e] *)
Fixpoint negations (n : nat) (e : expr) : expr :=
  match n with
  | O => e
  | S k => UnaryOp USub (negations k e)
  end.

(** [n] nested calls [abs(abs(...e...))] *)
Fixpoint abs_calls (n : nat) (e : expr) : expr :=
  match n with
  | O => e
  | S k => Call (Name (py "abs")) [abs_calls k e] []
  end.

(** The number of descents [_eval_node] can make into [e]: operands of
    operators and arguments of calls. *)
Fixpoint height (e : expr) : Z :=
  match e with
  | BinOp l _ r => 1 + Z.max (height l) (height r)
  | UnaryOp _ x => 1 + height x
  | Call _ args _ =>
      (fix over (l : list expr) : Z :=
         match l with
         | [] => 0
         | a :: r => Z.max (1 + height a) (over r)
         end) args
  | _ => 0
  end.

(** The number of significant digits a plain decimal string shows: its
    digits, from the first nonzero one on. *)
Definition significant_digits (s : pystr) : Z :=
  len (lstrip_char 48 (filter is_ascii_digit s)).

(** The errors the decimal library raises for an invalid or overflowing
    operation *)
Definition library_error (e : exn) : Prop :=
  e = Exn InvalidOperation LibraryMsg \/ e = Exn Overflow LibraryMsg.

(** A result that, when it raises, carries the library's own text *)
Definition lib_msg {A} (r : result A) : Prop :=
  match r with
  | Raise e => exn_message e = LibraryMsg
  | Return _ => True
  end.

(** [n] minus signs before [s] *)
Definition minus_signs (n : nat) (s : pystr) : pystr := repeat 45%N n ++ s.

(** [n] times ["abs("], [s], [n] closing parentheses *)
Definition abs_source (n : nat) (s : pystr) : pystr :=
  List.concat (repeat (py "abs(") n) ++ s ++ repeat 41%N n.

(** ** Plain notation *)

(** A decimal digit value *)
Definition small (d : N) : Prop := (d < 10)%N.

(** A string at whose head no digit stands *)
Definition stops (rest : pystr) : Prop :=
  match rest with
  | [] => True
  | c :: _ => is_ascii_digit c = false
  end.

(** A finite value the context holds without rounding: at most [prec]
    digits, exponent and adjusted exponent within the context's range *)
Definition fits (ctx : Context) (c : N) (e : Z) : Prop :=
  ndigits c <= prec ctx /\ Etiny ctx <= e /\ adjusted c e <= Emax.

(** The characters of plain notation: digits, ['-'] and ['.'] *)
Definition plain_char (c : N) : bool :=
  is_ascii_digit c || (c =? 45)%N || (c =? 46)%N.

(** The sign as [format] writes it *)
Definition sign_str (s : bool) : pystr := if s then [45%N] else [].

(** The plain numeral with integer digits [ip] and fraction digits [fp] *)
Definition numeral (s : bool) (ip fp : list N) : pystr :=
  sign_str s ++ map digit_char ip ++
    match fp with
    | [] => []
    | _ => 46%N :: map digit_char fp
    end.

(** The digits before and after the point of the coefficient digits [ds]
    at exponent [e], as [format(d, "f")] lays them out *)
Definition plain_parts (ds : list N) (e : Z) : list N * list N :=
  let L := Z.of_nat (List.length ds) in
  if e >=? 0 then (ds ++ repeat 0%N (Z.to_nat e), [])
  else if e + L <=? 0 then ([0%N], repeat 0%N (Z.to_nat (- (e + L))) ++ ds)
  else (firstn (Z.to_nat (e + L)) ds, skipn (Z.to_nat (e + L)) ds).

(** The names of [allowed_funcs] *)
Definition is_allowed (fname : pystr) : bool :=
  existsb (fun k => pystr_eqb fname (py k))
          ["sqrt"; "ln"; "log10"; "exp"; "abs"; "round"; "pow"]%string.

(** The length of the path [_eval_node] follows first: the left operand of
    a binary operator, the operand of a unary operator, the first argument
    of a call of an allowed function without keywords. *)
Fixpoint spine (e : expr) : Z :=
  match e with
  | BinOp l _ _ => 1 + spine l
  | UnaryOp _ x => 1 + spine x
  | Call (Name f) (a :: _) [] => if is_allowed f then 1 + spine a else 0
  | _ => 0
  end.

(** A bound on [max_depth] under which the recursion of [_eval_node], at
    most two interpreter frames a level, stays clear of the interpreter's
    own limit of 1000 frames. *)
Definition recursion_headroom : Z := 300.

(** [n] times ["+1"] after ["1"] *)
Definition sum_of_ones (n : nat) : pystr := py "1" ++ List.concat (repeat (py "+1") n).

(** An evaluator with the default settings and the constants only *)
Definition default_evaluator : DecimalEvaluator :=
  mkDecimalEvaluator default_settings SAFE_CONSTS.

(** * Properties *)

(** ** Literals *)

Lemma to_decimal_float (f : float64) : _to_decimal (CFloat f) = Raise float_rejected.
Proof. reflexivity. Qed.

(** C1 (the code departs from the claim).  A fractional literal reaches
    the evaluator as a binary float, not as its decimal text: ["1.5"]
    parses to the float [6755399441055744 * 2^-52], and [_to_decimal]
    raises TypeError for every float, so [evaluate("1.5")],
    [evaluate("1.2345")] and the test suite's [evaluate("abs(-12.5)")] all
    fail instead of yielding a Decimal. *)
Theorem C1_fractional_literal_is_rejected (lib : InexactOps) (m : Decimal) :
  ast_parse (py "1.5") = Some (Constant (CFloat (F_finite 6755399441055744 (-52)))) /\
  (forall f, _to_decimal (CFloat f) = Raise float_rejected) /\
  evaluate lib (py "1.5") (world_with m) = (Some (Raise float_rejected), world_with m) /\
  evaluate lib (py "1.2345") (world_with m) = (Some (Raise float_rejected), world_with m) /\
  evaluate lib (py "abs(-12.5)") (world_with m)
    = (Some (Raise float_rejected), world_with m).
Proof.
  repeat apply conj; try (intros; vm_compute; reflexivity).
Qed.

(** ** Worked examples *)

(** C2.  With the default settings, whatever the register holds:
    [evaluate("1+2*3") == "7"], [evaluate("(1+2)*3") == "9"],
    [evaluate("10/4") == "2.5"], [evaluate("5%2") == "1"] and
    [evaluate("2**10") == "1024"]. *)
Theorem C2_worked_examples (lib : InexactOps) (m : Decimal) :
  evaluate lib (py "1+2*3") (world_with m) = (Some (Return (py "7")), world_with m) /\
  evaluate lib (py "(1+2)*3") (world_with m) = (Some (Return (py "9")), world_with m) /\
  evaluate lib (py "10/4") (world_with m) = (Some (Return (py "2.5")), world_with m) /\
  evaluate lib (py "5%2") (world_with m) = (Some (Return (py "1")), world_with m) /\
  evaluate lib (py "2**10") (world_with m) = (Some (Return (py "1024")), world_with m).
Proof.
  repeat apply conj; vm_compute; reflexivity.
Qed.

(** ** Rounding *)

(** C3 (the code departs from the claim).  The three [round] examples of
    the claim carry a fractional literal, so each fails with the TypeError
    of C1 before [round] is applied. *)
Theorem C3_round_examples_fail (lib : InexactOps) (m : Decimal) :
  evaluate lib (py "round(1.2345, 2)") (world_with m)
    = (Some (Raise float_rejected), world_with m) /\
  evaluate lib (py "round(0.5,0)") (world_with m)
    = (Some (Raise float_rejected), world_with m) /\
  evaluate lib (py "round(1.5,0)") (world_with m)
    = (Some (Raise float_rejected), world_with m).
Proof.
  repeat apply conj; vm_compute; reflexivity.
Qed.

(** ** Precision *)

(** C4, as stated, fails: [set_precision(10)] raises ValueError and leaves
    the precision at 1000, and [evaluate("1/7")] then shows 1000
    significant digits, not 10. *)
Lemma C4_set_precision_10_is_refused :
  set_precision 10 default_context = (Raise invalid_precision, default_context) /\
  exists s,
    evaluate refusing (py "1/7")
      (mkWorld (new_engine None) (snd (set_precision 10 default_context)))
    = (Some (Return s), mkWorld (new_engine None) default_context) /\
    significant_digits s = 1000 /\
    significant_digits s <> 10.
Proof.
  apply conj; [reflexivity|].
  eexists. repeat apply conj; [vm_compute; reflexivity | vm_compute; reflexivity |].
  vm_compute. discriminate.
Qed.

(** C4, amended.  [set_precision(n)] fails with ValueError for every
    [n < 16], for 10 as for 5, and leaves the context as it was.
    [set_precision(16)] succeeds, and [evaluate("1/7")] on a default engine
    then returns ["0.1428571428571429"], 16 significant digits: the
    quotient is computed at the engine's own precision and rounded to the
    global precision when it is formatted. *)
Theorem C4_precision_switch (lib : InexactOps) (n : Z) (ctx : Context) (H : n < 16) :
  set_precision n ctx = (Raise invalid_precision, ctx) /\
  set_precision 16 default_context = (Return tt, mkContext 16 ROUND_HALF_EVEN) /\
  evaluate lib (py "1/7") (mkWorld (new_engine None) (mkContext 16 ROUND_HALF_EVEN))
    = (Some (Return (py "0.1428571428571429")),
       mkWorld (new_engine None) (mkContext 16 ROUND_HALF_EVEN)) /\
  significant_digits (py "0.1428571428571429") = 16.
Proof.
  apply conj; [|repeat apply conj; vm_compute; reflexivity].
  unfold set_precision. apply Z.ltb_lt in H. rewrite H. reflexivity.
Qed.

Lemma C4_precision_switch_witness :
  set_precision 10 default_context = (Raise invalid_precision, default_context) /\
  set_precision 5 default_context = (Raise invalid_precision, default_context).
Proof.
  split.
  - apply (C4_precision_switch refusing 10 default_context). lia.
  - apply (C4_precision_switch refusing 5 default_context). lia.
Defined.

(** ** The frame of an evaluation *)

Lemma eval_restores_context (lib : InexactOps) (self : DecimalEvaluator)
      (expr : pystr) (thread : Context) :
  snd (eval lib self expr thread) = thread.
Proof.
  unfold eval. destruct (new_Context _ _); reflexivity.
Qed.

(** C8.  Whatever the expression and the state, and whether the
    evaluation returns, raises or is outside the parser model, [evaluate]
    hands back the state it was given: the register, the settings and the
    thread's decimal context (precision and rounding mode). *)
Theorem C8_evaluate_changes_nothing (lib : InexactOps) (expr : pystr) (w : World) :
  snd (evaluate lib expr w) = w.
Proof.
  unfold evaluate.
  destruct (strip expr) as [|c s]; [reflexivity|].
  destruct (new_DecimalEvaluator _ _) as [ev|e]; [|reflexivity].
  pose proof (eval_restores_context lib ev (c :: s) (context w)) as Hctx.
  destruct (eval lib ev (c :: s) (context w)) as [r thread].
  simpl in Hctx. subst thread.
  destruct w as [eng ctx]. simpl.
  destruct r as [[d|e]|]; reflexivity.
Qed.

(** ** Blank input *)

Lemma lstrip_blank (s : pystr) : forallb py_isspace s = true -> lstrip s = [].
Proof.
  induction s as [|c r IH]; simpl; [reflexivity|].
  intros H. apply andb_prop in H. destruct H as [Hc Hr].
  rewrite Hc. auto.
Qed.

(** C10.  For an input made of whitespace only, the empty string
    included, [evaluate] returns [""]: nothing is parsed, nothing is
    raised, and the state is untouched. *)
Theorem C10_blank_input (lib : InexactOps) (s : pystr) (w : World)
        (H : forallb py_isspace s = true) :
  evaluate lib s w = (Some (Return []), w).
Proof.
  unfold evaluate, strip. rewrite (lstrip_blank s H). reflexivity.
Qed.

Lemma C10_blank_input_witness :
  evaluate refusing (py "  ") initial_world = (Some (Return []), initial_world) /\
  evaluate refusing [] initial_world = (Some (Return []), initial_world) /\
  evaluate refusing [9; 10; 160; 8195; 12288]%N initial_world
    = (Some (Return []), initial_world).
Proof.
  repeat apply conj; apply C10_blank_input; reflexivity.
Defined.

(** ** What the decimal operations raise *)

Lemma fix_raises ctx d e : _fix ctx d = Raise e -> e = Exn Overflow LibraryMsg.
Proof.
  unfold _fix, raise_lib. destruct d as [s c x| |]; try discriminate.
  repeat match goal with
         | |- context [if ?b then _ else _] => destruct b
         end; intros H; try discriminate H; injection H as <-; reflexivity.
Qed.

Lemma check_nans_raises ctx a b e :
  _check_nans ctx a b = Some (Raise e) -> e = Exn InvalidOperation LibraryMsg.
Proof.
  unfold _check_nans, raise_lib.
  destruct a as [? ? ?|?|? [|] ?]; destruct b as [? ? ?|?|? [|] ?]; intros H;
    try discriminate H; injection H as <-; reflexivity.
Qed.

Lemma dec_div_raises ctx a b e :
  is_zero b = false -> dec_div ctx a b = Raise e -> library_error e.
Proof.
  intros Hb. unfold dec_div.
  destruct (_check_nans ctx a b) as [[d|e']|] eqn:Hn.
  - discriminate.
  - intros H. injection H as <-. left. eapply check_nans_raises; eauto.
  - destruct a as [s1 c1 e1|s1|]; destruct b as [s2 c2 e2|s2|]; try discriminate;
      try (unfold raise_lib; intros H; injection H as <-; left; reflexivity).
    simpl in Hb. rewrite Hb.
    destruct (c1 =? 0)%N.
    + intros H. right. eapply fix_raises; eauto.
    + cbv zeta. destruct (negb _).
      * intros H. right. eapply fix_raises; eauto.
      * destruct (strip_zeros_to _ _ _ _). intros H. right. eapply fix_raises; eauto.
Qed.

Lemma dec_mod_raises ctx a b e :
  dec_mod ctx a b = Raise e -> library_error e.
Proof.
  unfold dec_mod.
  destruct (_check_nans ctx a b) as [[d|e']|] eqn:Hn.
  - discriminate.
  - intros H. injection H as <-. left. eapply check_nans_raises; eauto.
  - assert (Hz : (if is_zero b then raise_lib InvalidOperation
                  else r <- _divide_rem ctx a b;; _fix ctx r) = Raise e -> library_error e).
    { destruct (is_zero b).
      - unfold raise_lib. intros H. injection H as <-. left. reflexivity.
      - destruct (_divide_rem ctx a b) as [r|e'] eqn:Hd; simpl.
        + intros H. right. eapply fix_raises; eauto.
        + intros H. injection H as <-. left.
          unfold _divide_rem, raise_lib in Hd.
          destruct a as [s1 c1 e1|s1|]; destruct b as [s2 c2 e2|s2|]; try discriminate.
          revert Hd.
          repeat match goal with
                 | |- context [if ?b then _ else _] => destruct b
                 end; intros Hd; try discriminate Hd; injection Hd as <-; reflexivity. }
    destruct a; try exact Hz.
    unfold raise_lib. intros H. injection H as <-. left. reflexivity.
Qed.

Lemma dec_eq_zero ctx s e : dec_eq ctx (Finite s 0 e) (Decimal_of_int 0) = Return true.
Proof. reflexivity. Qed.

Lemma dec_eq_nonzero ctx b :
  is_zero b = false ->
  dec_eq ctx b (Decimal_of_int 0) = Return false \/
  dec_eq ctx b (Decimal_of_int 0) = raise_lib InvalidOperation.
Proof.
  destruct b as [s c e|s|s [|] p]; simpl; intros H.
  - left. unfold dec_eq. simpl. rewrite H. destruct s; reflexivity.
  - left. destruct s; reflexivity.
  - right. reflexivity.
  - left. reflexivity.
Qed.

(** ** Division and modulo by zero *)

(** C6.  A right operand that is an exact zero (either sign, any exponent)
    makes [/] raise ZeroDivisionError("Division by zero.") and [%] raise
    ZeroDivisionError("Modulo by zero."), two different errors;
    [evaluate("1/0")] and [evaluate("1%0")] raise them.  For a right
    operand [b] that is not zero the guard is not taken: whatever [/] or
    [%] then raises is the library's InvalidOperation or Overflow, never a
    zero-division error. *)
Theorem C6_zero_divisor (lib : InexactOps) (ctx : Context) (a b m : Decimal)
        (Hb : is_zero b = false) :
  (forall s e, _apply_binop lib ctx a Div (Finite s 0 e) = Raise division_by_zero) /\
  (forall s e, _apply_binop lib ctx a Mod (Finite s 0 e) = Raise modulo_by_zero) /\
  division_by_zero <> modulo_by_zero /\
  evaluate lib (py "1/0") (world_with m) = (Some (Raise division_by_zero), world_with m) /\
  evaluate lib (py "1%0") (world_with m) = (Some (Raise modulo_by_zero), world_with m) /\
  (forall e, _apply_binop lib ctx a Div b = Raise e -> library_error e) /\
  (forall e, _apply_binop lib ctx a Mod b = Raise e -> library_error e).
Proof.
  repeat apply conj.
  - reflexivity.
  - reflexivity.
  - vm_compute. discriminate.
  - vm_compute. reflexivity.
  - vm_compute. reflexivity.
  - intros e. unfold _apply_binop.
    destruct (dec_eq_nonzero ctx b Hb) as [-> | ->]; simpl.
    + apply dec_div_raises; assumption.
    + intros H. injection H as <-. left. reflexivity.
  - intros e. unfold _apply_binop.
    destruct (dec_eq_nonzero ctx b Hb) as [-> | ->]; simpl.
    + apply dec_mod_raises.
    + intros H. injection H as <-. left. reflexivity.
Qed.

Lemma C6_zero_divisor_witness :
  is_zero (Decimal_of_int 4) = false /\
  forall e, _apply_binop refusing default_context (Decimal_of_int 10) Div (Decimal_of_int 4)
            = Raise e -> library_error e.
Proof.
  split; [reflexivity|].
  exact (proj1 (proj2 (proj2 (proj2 (proj2 (proj2
    (C6_zero_divisor refusing default_context (Decimal_of_int 10) (Decimal_of_int 4)
       (Decimal_of_int 0) eq_refl))))))).
Defined.

(** ** Building blocks of an evaluation *)

Lemma new_Context_ok p r : 1 <= p <= MAX_PREC -> new_Context p r = Return (mkContext p r).
Proof.
  intros [H1 H2]. unfold new_Context.
  apply Z.leb_le in H1, H2. rewrite H1, H2. reflexivity.
Qed.

Lemma new_DecimalEvaluator_M (s : EvalSettings) (m : Decimal) :
  new_DecimalEvaluator s [(py "M", CDecimal m)]
  = Return (mkDecimalEvaluator s (SAFE_CONSTS ++ [(py "M", m)])).
Proof. reflexivity. Qed.

Lemma evaluate_parsed (lib : InexactOps) (src : pystr) (w : World)
      (ev : DecimalEvaluator) (c : Context) (body : expr) :
  strip src <> [] ->
  new_DecimalEvaluator (engine_settings (engine w))
    [(py "M", CDecimal (Memory_recall (memory (engine w))))] = Return ev ->
  new_Context (precision (settings ev)) (rounding_of (settings ev)) = Return c ->
  ast_parse (strip src) = Some body ->
  evaluate lib src w
  = (Some (r <- _eval_node lib ev c body 0 ;; format_decimal (context w) r), w).
Proof.
  unfold evaluate. destruct (strip src) as [|x s] eqn:E; [contradiction|].
  intros _ -> Hc Hp. unfold eval. rewrite Hc, Hp.
  destruct w as [eng ctx]. simpl.
  destruct (_eval_node lib ev c body 0); reflexivity.
Qed.

Lemma depth_zero_ok d : 0 <= d -> (0 >? d) = false.
Proof. intros H. rewrite Z.gtb_ltb. apply Z.ltb_ge. lia. Qed.

(** ** The memory register *)

(** C7.  In any state whose settings are usable, [evaluate("M")] is the
    formatted current value of the register: the evaluator is built anew,
    with [M] bound to [memory.recall()], on every call.  After [clear()]
    and [add(3)], [evaluate("M*2")] is ["6"]; after a further [add(1)] it
    is ["8"]. *)
Theorem C7_memory_is_read_on_every_call (lib : InexactOps) (w : World) (m0 : Decimal)
        (Hp : 1 <= precision (engine_settings (engine w)) <= MAX_PREC)
        (Hd : 0 <= max_depth (engine_settings (engine w))) :
  evaluate lib (py "M") w
    = (Some (format_decimal (context w) (Memory_recall (memory (engine w)))), w) /\
  (let m1 := snd (Memory_add default_context (Decimal_of_int 3) (Memory_clear (mkMemory m0))) in
   let m2 := snd (Memory_add default_context (Decimal_of_int 1) m1) in
   m1 = mkMemory (Decimal_of_int 3) /\
   evaluate lib (py "M*2") (mkWorld (mkEngine default_settings m1) default_context)
     = (Some (Return (py "6")), mkWorld (mkEngine default_settings m1) default_context) /\
   evaluate lib (py "M*2") (mkWorld (mkEngine default_settings m2) default_context)
     = (Some (Return (py "8")), mkWorld (mkEngine default_settings m2) default_context)).
Proof.
  split.
  - rewrite (evaluate_parsed lib (py "M") w _ _ (Name (py "M"))
               ltac:(vm_compute; discriminate)
               (new_DecimalEvaluator_M _ _)
               (new_Context_ok _ _ Hp)
               ltac:(vm_compute; reflexivity)).
    unfold _eval_node. simpl settings. rewrite (depth_zero_ok _ Hd).
    reflexivity.
  - cbv zeta. repeat apply conj; vm_compute; reflexivity.
Qed.

Lemma C7_memory_is_read_on_every_call_witness :
  evaluate refusing (py "M") (world_with (Decimal_of_int 3))
  = (Some (Return (py "3")), world_with (Decimal_of_int 3)).
Proof.
  exact (proj1 (C7_memory_is_read_on_every_call refusing (world_with (Decimal_of_int 3))
                  (Decimal_of_int 0)
                  ltac:(vm_compute; split; discriminate)
                  ltac:(vm_compute; discriminate))).
Defined.

(** ** The messages of library errors *)

Lemma fix_lib ctx d : lib_msg (_fix ctx d).
Proof.
  destruct (_fix ctx d) eqn:E; simpl; [exact I|].
  apply fix_raises in E. subst. reflexivity.
Qed.

Lemma check_nans_lib ctx a b r : _check_nans ctx a b = Some r -> lib_msg r.
Proof.
  unfold _check_nans, raise_lib.
  destruct a as [? ? ?|?|? [|] ?]; destruct b as [? ? ?|?|? [|] ?]; intros H;
    try discriminate H; injection H as <-; simpl; auto.
Qed.

Lemma check_nans1_lib ctx a r : _check_nans1 ctx a = Some r -> lib_msg r.
Proof.
  unfold _check_nans1, raise_lib.
  destruct a as [? ? ?|?|? [|] ?]; intros H;
    try discriminate H; injection H as <-; simpl; auto.
Qed.

Lemma from_library_lib r : lib_msg (from_library r).
Proof. destruct r; simpl; auto. Qed.

Lemma bind_lib {A B} (r : result A) (k : A -> result B) :
  lib_msg r -> (forall a, lib_msg (k a)) -> lib_msg (bind r k).
Proof. destruct r; simpl; auto. Qed.

Ltac lib_step :=
  match goal with
  | |- lib_msg (Return _) => exact I
  | |- lib_msg (raise_lib _) => reflexivity
  | |- lib_msg (_fix _ _) => apply fix_lib
  | |- lib_msg (from_library _) => apply from_library_lib
  | |- lib_msg (bind _ _) => apply bind_lib; [|intro]
  | H : _check_nans _ _ _ = Some ?r |- lib_msg ?r => exact (check_nans_lib _ _ _ _ H)
  | H : _check_nans1 _ _ = Some ?r |- lib_msg ?r => exact (check_nans1_lib _ _ _ H)
  | |- lib_msg (match _check_nans ?c ?a ?b with _ => _ end) =>
      destruct (_check_nans c a b) eqn:?
  | |- lib_msg (match _check_nans1 ?c ?a with _ => _ end) =>
      destruct (_check_nans1 c a) eqn:?
  | |- lib_msg (if ?b then _ else _) => destruct b
  | |- lib_msg (match ?x with _ => _ end) => destruct x
  | |- lib_msg (let '(_, _) := ?x in _) => destruct x
  end.

Ltac lib_auto := repeat (cbv zeta; lib_step).

Lemma dec_add_lib ctx a b : lib_msg (dec_add ctx a b).
Proof. unfold dec_add. lib_auto. Qed.

Lemma dec_sub_lib ctx a b : lib_msg (dec_sub ctx a b).
Proof. unfold dec_sub. lib_auto. apply dec_add_lib. Qed.

Lemma dec_mul_lib ctx a b : lib_msg (dec_mul ctx a b).
Proof. unfold dec_mul. lib_auto. Qed.

Lemma dec_div_lib ctx a b : lib_msg (dec_div ctx a b).
Proof. unfold dec_div. lib_auto. Qed.

Lemma dec_mod_lib ctx a b : lib_msg (dec_mod ctx a b).
Proof. unfold dec_mod, _divide_rem. lib_auto. Qed.

Lemma dec_neg_lib ctx a : lib_msg (dec_neg ctx a).
Proof. unfold dec_neg. lib_auto. Qed.

Lemma dec_int_lib a : lib_msg (dec_int a).
Proof. unfold dec_int. lib_auto. Qed.

Lemma dec_eq_lib ctx a b : lib_msg (dec_eq ctx a b).
Proof.
  unfold dec_eq. destruct (_check_nans ctx a b) as [[|]|] eqn:E; simpl; auto.
  exact (check_nans_lib _ _ _ _ E).
Qed.

Lemma scaleb_lib ctx a n : lib_msg (scaleb ctx a n).
Proof. unfold scaleb. lib_auto. Qed.

Lemma quantize_lib ctx a q : lib_msg (quantize ctx a q).
Proof. unfold quantize. lib_auto. Qed.

Lemma round_decimal_lib ctx x n : lib_msg (_round_decimal ctx x n).
Proof. unfold _round_decimal. lib_auto; auto using scaleb_lib, quantize_lib. Qed.

Lemma dec_sqrt_lib ctx a : lib_msg (dec_sqrt ctx a).
Proof. unfold dec_sqrt. lib_auto. Qed.

Lemma dec_exp_lib lib ctx a : lib_msg (dec_exp lib ctx a).
Proof. unfold dec_exp. lib_auto. Qed.

Lemma dec_ln_lib lib ctx a : lib_msg (dec_ln lib ctx a).
Proof. unfold dec_ln. lib_auto. Qed.

Lemma dec_log10_lib lib ctx a : lib_msg (dec_log10 lib ctx a).
Proof. unfold dec_log10. lib_auto. Qed.

Lemma dec_pow_lib lib ctx a b : lib_msg (dec_pow lib ctx a b).
Proof. unfold dec_pow. lib_auto. Qed.

Lemma Decimal_of_str_lib s : lib_msg (Decimal_of_str s).
Proof. unfold Decimal_of_str. lib_auto. Qed.

Lemma normalize_lib ctx a : lib_msg (normalize ctx a).
Proof. unfold normalize. lib_auto. Qed.

(** ** The depth guard *)

Lemma expr_ind_args (P : expr -> Prop)
      (HConst : forall v, P (Constant v))
      (HBin : forall l op r, P l -> P r -> P (BinOp l op r))
      (HUn : forall op x, P x -> P (UnaryOp op x))
      (HName : forall id, P (Name id))
      (HCall : forall f args kws, Forall P args -> P (Call f args kws))
      (HOther : forall ch, P (Other ch)) :
  forall e, P e.
Proof.
  fix IH 1. intros [v|l op r|op x|id|f args kws|ch].
  - apply HConst.
  - apply HBin; apply IH.
  - apply HUn; apply IH.
  - apply HName.
  - apply HCall. induction args as [|a r IHr]; constructor; [apply IH | exact IHr].
  - apply HOther.
Qed.

Lemma height_nonneg e : 0 <= height e.
Proof.
  induction e as [v|l op r IHl IHr|op x IHx|id|f args kws IHargs|ch] using expr_ind_args;
    cbn [height]; try lia.
  induction IHargs as [|a r Ha Hr IH]; lia.
Qed.

Lemma eval_too_deep lib self ctx node depth :
  depth > max_depth (settings self) ->
  _eval_node lib self ctx node depth = Raise nesting_too_deep.
Proof.
  intros H. assert (E : (depth >? max_depth (settings self)) = true)
    by (rewrite Z.gtb_ltb; apply Z.ltb_lt; lia).
  destruct node; simpl; rewrite E; reflexivity.
Qed.

Lemma negations_too_deep lib self ctx e (n : nat) depth :
  depth + Z.of_nat n > max_depth (settings self) ->
  _eval_node lib self ctx (negations n e) depth = Raise nesting_too_deep.
Proof.
  revert depth. induction n as [|k IH]; intros depth H.
  - apply eval_too_deep. simpl in H. lia.
  - simpl negations. simpl _eval_node.
    destruct (depth >? max_depth (settings self)); [reflexivity|].
    rewrite IH by lia. reflexivity.
Qed.

Lemma abs_calls_too_deep lib self ctx e (n : nat) depth :
  depth + Z.of_nat n > max_depth (settings self) ->
  _eval_node lib self ctx (abs_calls n e) depth = Raise nesting_too_deep.
Proof.
  revert depth. induction n as [|k IH]; intros depth H.
  - apply eval_too_deep. simpl in H. lia.
  - simpl abs_calls.
    destruct (Z_gt_le_dec depth (max_depth (settings self))) as [Hgt|Hle].
    + apply eval_too_deep. exact Hgt.
    + assert (E : (depth >? max_depth (settings self)) = false)
        by (rewrite Z.gtb_ltb; apply Z.ltb_ge; lia).
      cbn [_eval_node]. rewrite E. cbn [func_id].
      change (allowed_funcs lib (py "abs")) with
        (Some (fun (ctx : Context) (dargs : list Decimal) =>
                 match dargs with
                 | [x] => Return (copy_abs x)
                 | _ => @raise_lib Decimal TypeError
                 end)).
      cbv beta iota.
      rewrite IH by lia. reflexivity.
Qed.

Lemma lib_msg_not_nesting {A} (r : result A) : lib_msg r -> r <> Raise nesting_too_deep.
Proof. intros H E. rewrite E in H. discriminate H. Qed.

Lemma allowed_funcs_lib lib fname fn :
  allowed_funcs lib fname = Some fn -> forall ctx dargs, lib_msg (fn ctx dargs).
Proof.
  unfold allowed_funcs.
  repeat match goal with
         | |- context [if ?b then _ else _] => destruct b
         end; intros H; try discriminate H; injection H as <-; intros ctx dargs;
    destruct dargs as [|x [|y [|z r]]]; try reflexivity;
    auto using dec_sqrt_lib, dec_ln_lib, dec_log10_lib, dec_exp_lib, dec_pow_lib.
  - apply round_decimal_lib.
  - apply bind_lib; [apply dec_int_lib | intro; apply round_decimal_lib].
Qed.

Lemma to_decimal_not_nesting v : _to_decimal v <> Raise nesting_too_deep.
Proof.
  destruct v; simpl; try discriminate;
    apply lib_msg_not_nesting, Decimal_of_str_lib.
Qed.

Lemma apply_binop_not_nesting lib ctx a op b :
  _apply_binop lib ctx a op b <> Raise nesting_too_deep.
Proof.
  destruct op; simpl; try discriminate;
    try (apply lib_msg_not_nesting;
         auto using dec_add_lib, dec_sub_lib, dec_mul_lib, dec_pow_lib; fail).
  - pose proof (dec_eq_lib ctx b (Decimal_of_int 0)) as He.
    destruct (dec_eq ctx b (Decimal_of_int 0)) as [[|]|e]; simpl.
    + discriminate.
    + apply lib_msg_not_nesting, dec_div_lib.
    + apply lib_msg_not_nesting. exact He.
  - pose proof (dec_eq_lib ctx b (Decimal_of_int 0)) as He.
    destruct (dec_eq ctx b (Decimal_of_int 0)) as [[|]|e]; simpl.
    + discriminate.
    + apply lib_msg_not_nesting, dec_mod_lib.
    + apply lib_msg_not_nesting. exact He.
Qed.

Lemma apply_unary_not_nesting ctx op v :
  _apply_unary ctx op v <> Raise nesting_too_deep.
Proof.
  destruct op; simpl; try discriminate.
  apply lib_msg_not_nesting, dec_neg_lib.
Qed.

Lemma depth_within d m : d <= m -> (d >? m) = false.
Proof. intros H. rewrite Z.gtb_ltb. apply Z.ltb_ge. lia. Qed.

Lemma within_height lib self ctx e :
  forall d, d + height e <= max_depth (settings self) ->
            _eval_node lib self ctx e d <> Raise nesting_too_deep.
Proof.
  induction e as [v|l op r IHl IHr|op x IHx|id|f args kws IHargs|ch] using expr_ind_args;
    intros d Hd; cbn [height] in Hd.
  - cbn [_eval_node]. rewrite depth_within by lia. apply to_decimal_not_nesting.
  - pose proof (height_nonneg l). pose proof (height_nonneg r).
    cbn [_eval_node]. rewrite depth_within by lia.
    specialize (IHl (d + 1) ltac:(lia)). specialize (IHr (d + 1) ltac:(lia)).
    destruct (_eval_node lib self ctx l (d + 1)) as [a|ea]; simpl;
      [|intros E; apply IHl; exact E].
    destruct (_eval_node lib self ctx r (d + 1)) as [b|eb]; simpl;
      [|intros E; apply IHr; exact E].
    apply apply_binop_not_nesting.
  - pose proof (height_nonneg x).
    cbn [_eval_node]. rewrite depth_within by lia.
    specialize (IHx (d + 1) ltac:(lia)).
    destruct (_eval_node lib self ctx x (d + 1)) as [a|ea]; simpl;
      [|intros E; apply IHx; exact E].
    apply apply_unary_not_nesting.
  - cbn [_eval_node]. rewrite depth_within by lia.
    destruct (dict_get id (vars self)); discriminate.
  - assert (Hd0 : d <= max_depth (settings self)).
    { revert Hd. clear. generalize (max_depth (settings self)). intros m.
      destruct args as [|a r]; [lia|].
      pose proof (height_nonneg a). lia. }
    cbn [_eval_node]. rewrite depth_within by lia.
    destruct kws; [|intros E; vm_compute in E; discriminate E].
    destruct (func_id f) as [fname|]; [|discriminate].
    destruct (allowed_funcs lib fname) as [fn|] eqn:Hfn; [|discriminate].
    pose proof (allowed_funcs_lib lib fname fn Hfn ctx) as Hlib.
    match goal with
    | |- bind ?ea _ <> _ => assert (Hargs : ea <> Raise nesting_too_deep)
    end.
    { clear Hfn Hlib. induction IHargs as [|a r Ha Hr IH].
      - discriminate.
      - specialize (Ha (d + 1) ltac:(lia)).
        destruct (_eval_node lib self ctx a (d + 1)) as [x|ex]; simpl;
          [|intros E; apply Ha; congruence].
        specialize (IH ltac:(lia)).
        match goal with
        | |- bind ?er _ <> _ => destruct er as [xs|exs]; simpl;
                                [discriminate | intros E; apply IH; congruence]
        end. }
    match goal with
    | |- bind ?ea _ <> _ => destruct ea as [dargs|e]; simpl;
                            [|intros E; apply Hargs; congruence]
    end.
    apply lib_msg_not_nesting, Hlib.
  - cbn [_eval_node]. rewrite depth_within by lia. discriminate.
Qed.

Lemma allowed_funcs_some lib fname :
  is_allowed fname = true -> exists fn, allowed_funcs lib fname = Some fn.
Proof.
  unfold is_allowed, allowed_funcs. cbn [existsb].
  repeat match goal with
         | |- context [pystr_eqb fname ?k] => destruct (pystr_eqb fname k)
         end; cbn [orb]; intros H; try discriminate H; eauto.
Qed.

Lemma spine_nonneg e : 0 <= spine e.
Proof.
  induction e as [v|l op r IHl IHr|op x IHx|id|f args kws IHargs|ch] using expr_ind_args;
    cbn [spine]; try lia.
  destruct f; try lia. destruct args as [|a r]; [lia|]. destruct kws; [|lia].
  destruct (is_allowed id); [|lia].
  inversion IHargs; subst. lia.
Qed.

Lemma spine_too_deep lib self ctx e :
  forall d, d + spine e > max_depth (settings self) ->
            _eval_node lib self ctx e d = Raise nesting_too_deep.
Proof.
  induction e as [v|l op r IHl IHr|op x IHx|id|f args kws IHargs|ch] using expr_ind_args;
    intros d Hd;
    (destruct (Z_gt_le_dec d (max_depth (settings self))) as [Hgt|Hle];
     [apply eval_too_deep; exact Hgt|]);
    cbn [spine] in Hd; try lia.
  - cbn [_eval_node]. rewrite depth_within by exact Hle.
    rewrite IHl by lia. reflexivity.
  - cbn [_eval_node]. rewrite depth_within by exact Hle.
    rewrite IHx by lia. reflexivity.
  - destruct f as [| | |fname| |]; try lia.
    destruct args as [|a r]; [lia|]. destruct kws; [|lia].
    destruct (is_allowed fname) eqn:Ha; [|lia].
    destruct (allowed_funcs_some lib fname Ha) as [fn Hfn].
    inversion IHargs as [|? ? IHa _]; subst.
    cbn [_eval_node]. rewrite depth_within by exact Hle.
    cbn [func_id]. rewrite Hfn.
    rewrite IHa by lia. reflexivity.
Qed.

Lemma deep_never_returns lib self ctx e :
  forall d, d + height e > max_depth (settings self) ->
            forall v, _eval_node lib self ctx e d <> Return v.
Proof.
  induction e as [v0|l op r IHl IHr|op x IHx|id|f args kws IHargs|ch] using expr_ind_args;
    intros d Hd v;
    (destruct (Z_gt_le_dec d (max_depth (settings self))) as [Hgt|Hle];
     [rewrite eval_too_deep by exact Hgt; discriminate|]);
    cbn [height] in Hd; try lia.
  - cbn [_eval_node]. rewrite depth_within by exact Hle.
    destruct (_eval_node lib self ctx l (d + 1)) as [a|ea] eqn:El; cbn [bind];
      [|discriminate].
    destruct (_eval_node lib self ctx r (d + 1)) as [b|eb] eqn:Er; cbn [bind];
      [|discriminate].
    exfalso.
    destruct (Z_gt_le_dec (d + 1 + height l) (max_depth (settings self))) as [Hl|Hl].
    + apply (IHl (d + 1) Hl a). exact El.
    + apply (IHr (d + 1) ltac:(lia) b). exact Er.
  - cbn [_eval_node]. rewrite depth_within by exact Hle.
    destruct (_eval_node lib self ctx x (d + 1)) as [a|ea] eqn:Ex; cbn [bind];
      [|discriminate].
    exfalso. apply (IHx (d + 1) ltac:(lia) a). exact Ex.
  - cbn [_eval_node]. rewrite depth_within by exact Hle.
    destruct kws; [|discriminate].
    destruct (func_id f) as [fname|]; [|discriminate].
    destruct (allowed_funcs lib fname) as [fn|]; [|discriminate].
    match goal with
    | |- bind ?ea _ <> _ => assert (Hargs : forall vs, ea <> Return vs)
    end.
    { clear fn. induction IHargs as [|a r Ha Hr IH]; [lia|].
      intros vs.
      destruct (_eval_node lib self ctx a (d + 1)) as [x|ex] eqn:Ea; cbn [bind];
        [|discriminate].
      destruct (Z_gt_le_dec (d + 1 + height a) (max_depth (settings self))) as [Hdeep|Hsh].
      - exfalso. apply (Ha (d + 1) Hdeep x). exact Ea.
      - specialize (IH ltac:(lia)).
        match goal with
        | |- bind ?er _ <> _ => destruct er as [xs|exs] eqn:Er; cbn [bind];
                                [exfalso; apply (IH xs); reflexivity | discriminate]
        end. }
    match goal with
    | |- bind ?ea _ <> _ => destruct ea as [dargs|e] eqn:Eargs; cbn [bind];
                            [exfalso; apply (Hargs dargs); reflexivity | discriminate]
    end.
Qed.

(** C5, as stated, fails: 65 nested parentheses around [1] exceed
    [max_depth = 64] and evaluate to ["1"], because parentheses add no
    node to the tree; and a tree that is too deep on the right fails with
    the error of its left operand when that one is raised first. *)
Lemma C5_nested_parentheses_pass :
  max_depth default_settings = 64 /\
  evaluate refusing (parenthesized 65 (py "1")) initial_world
    = (Some (Return (py "1")), initial_world) /\
  evaluate refusing (py "x+" ++ minus_signs 65 (py "1")) initial_world
    = (Some (Raise (Exn NameError (Msg (py "Unknown identifier: x")))), initial_world).
Proof.
  repeat apply conj; vm_compute; reflexivity.
Qed.

(** C5, amended.  The depth starts at 0 and grows by one on each descent
    into an operand of a unary or binary operator or an argument of a
    call; parentheses add none.  For a [max_depth] of at most 300 and a
    depth that is not negative, under which the interpreter's own recursion
    limit stays out of reach:
    - a node evaluated at a depth above [max_depth] raises
      ValueError("Expression too deeply nested.");
    - so does an expression whose first-evaluated path (left operands,
      operands of unary operators, first arguments of allowed calls) is
      longer than [max_depth], as are more than [max_depth] nested unary
      operators or calls;
    - an expression whose tree is deeper than [max_depth] never returns a
      value: it raises that error or one met earlier;
    - an expression whose tree is at most [max_depth] deep never raises
      that error.
    With the default limit of 64, 65 minus signs or 65 nested [abs(]
    before [1], and the sum of 66 ones, fail with it; 64 minus signs give
    ["1"] and the sum of 65 ones gives ["65"]. *)
Theorem C5_depth_guard (lib : InexactOps) (self : DecimalEvaluator) (ctx : Context)
        (node : expr) (depth : Z) (n : nat) (m : Decimal)
        (Hlimit : max_depth (settings self) <= recursion_headroom)
        (Hdepth : 0 <= depth) :
  (depth > max_depth (settings self) ->
   _eval_node lib self ctx node depth = Raise nesting_too_deep) /\
  (depth + spine node > max_depth (settings self) ->
   _eval_node lib self ctx node depth = Raise nesting_too_deep) /\
  (depth + height node > max_depth (settings self) ->
   forall v, _eval_node lib self ctx node depth <> Return v) /\
  (depth + height node <= max_depth (settings self) ->
   _eval_node lib self ctx node depth <> Raise nesting_too_deep) /\
  (Z.of_nat n > max_depth (settings self) ->
   _eval_node lib self ctx (negations n node) 0 = Raise nesting_too_deep /\
   _eval_node lib self ctx (abs_calls n node) 0 = Raise nesting_too_deep) /\
  evaluate lib (minus_signs 65 (py "1")) (world_with m)
    = (Some (Raise nesting_too_deep), world_with m) /\
  evaluate lib (minus_signs 64 (py "1")) (world_with m)
    = (Some (Return (py "1")), world_with m) /\
  evaluate lib (abs_source 65 (py "1")) (world_with m)
    = (Some (Raise nesting_too_deep), world_with m) /\
  evaluate lib (sum_of_ones 65) (world_with m)
    = (Some (Raise nesting_too_deep), world_with m) /\
  evaluate lib (sum_of_ones 64) (world_with m)
    = (Some (Return (py "65")), world_with m).
Proof.
  repeat apply conj.
  - apply eval_too_deep.
  - apply spine_too_deep.
  - apply deep_never_returns.
  - apply within_height.
  - intros Hn. split; [apply negations_too_deep | apply abs_calls_too_deep]; lia.
  - vm_compute. reflexivity.
  - vm_compute. reflexivity.
  - vm_compute. reflexivity.
  - vm_compute. reflexivity.
  - vm_compute. reflexivity.
Qed.

Lemma C5_depth_guard_witness :
  _eval_node refusing default_evaluator default_context (Constant (CInt 1)) 65
    = Raise nesting_too_deep /\
  _eval_node refusing default_evaluator default_context
    (BinOp (negations 64 (Constant (CInt 1))) Add (Constant (CInt 1))) 0
    = Raise nesting_too_deep /\
  (forall v, _eval_node refusing default_evaluator default_context
               (BinOp (Name (py "x")) Add (negations 65 (Constant (CInt 1)))) 0
             <> Return v) /\
  _eval_node refusing default_evaluator default_context
    (BinOp (Constant (CInt 1)) Add (negations 63 (Constant (CInt 1)))) 0
    <> Raise nesting_too_deep.
Proof.
  assert (Hlimit : max_depth (settings default_evaluator) <= recursion_headroom)
    by (vm_compute; discriminate).
  assert (H0 : 0 <= 0) by lia.
  assert (H65 : 0 <= 65) by lia.
  repeat apply conj.
  - exact (proj1 (C5_depth_guard refusing default_evaluator default_context
                    (Constant (CInt 1)) 65 0 (Decimal_of_int 0) Hlimit H65)
             ltac:(vm_compute; reflexivity)).
  - exact (proj1 (proj2 (C5_depth_guard refusing default_evaluator default_context
                           (BinOp (negations 64 (Constant (CInt 1))) Add (Constant (CInt 1)))
                           0 0 (Decimal_of_int 0) Hlimit H0))
             ltac:(vm_compute; reflexivity)).
  - exact (proj1 (proj2 (proj2 (C5_depth_guard refusing default_evaluator default_context
                                  (BinOp (Name (py "x")) Add
                                         (negations 65 (Constant (CInt 1))))
                                  0 0 (Decimal_of_int 0) Hlimit H0)))
             ltac:(vm_compute; reflexivity)).
  - exact (proj1 (proj2 (proj2 (proj2 (C5_depth_guard refusing default_evaluator
                                         default_context
                                         (BinOp (Constant (CInt 1)) Add
                                                (negations 63 (Constant (CInt 1))))
                                         0 0 (Decimal_of_int 0) Hlimit H0))))
             ltac:(vm_compute; discriminate)).
Defined.

(** ** Digits and powers of ten *)

(** Powers of ten *)
Lemma pow10_Z k : 0 <= k -> Z.of_N (pow10 k) = 10 ^ k.
Proof.
  intros H. unfold pow10. rewrite Z.max_r by lia.
  rewrite Z2N.id; [reflexivity|]. apply Z.pow_nonneg. lia.
Qed.

Lemma pow10_neg k : k <= 0 -> pow10 k = 1%N.
Proof. intros H. unfold pow10. rewrite Z.max_l by lia. reflexivity. Qed.

Lemma pow10_pos k : (0 < pow10 k)%N.
Proof.
  unfold pow10. assert (0 < 10 ^ Z.max 0 k) by (apply Z.pow_pos_nonneg; lia). lia.
Qed.

Lemma pow10_succ k : 0 <= k -> pow10 (k + 1) = (10 * pow10 k)%N.
Proof.
  intros H. apply N2Z.inj. rewrite N2Z.inj_mul, !pow10_Z by lia.
  rewrite Z.pow_add_r by lia. lia.
Qed.

Lemma pow10_add a b : 0 <= a -> 0 <= b -> pow10 (a + b) = (pow10 a * pow10 b)%N.
Proof.
  intros Ha Hb. apply N2Z.inj. rewrite N2Z.inj_mul, !pow10_Z by lia.
  apply Z.pow_add_r; lia.
Qed.

(** The number of digits *)
Lemma ndigits_fuel_spec (fuel : nat) : forall n : N,
  (0 < n)%N -> Z.of_N n < 10 ^ (Z.of_nat fuel + 1) ->
  1 <= ndigits_fuel fuel n /\
  10 ^ (ndigits_fuel fuel n - 1) <= Z.of_N n < 10 ^ ndigits_fuel fuel n.
Proof.
  induction fuel as [|f IH]; intros n Hpos Hlt.
  - simpl in *. change (10 ^ 1) with 10 in Hlt. change (10 ^ (1 - 1)) with 1.
    change (10 ^ 1) with 10. lia.
  - cbn [ndigits_fuel]. destruct (n <? 10)%N eqn:E.
    + apply N.ltb_lt in E. change (10 ^ (1 - 1)) with 1. change (10 ^ 1) with 10. lia.
    + apply N.ltb_ge in E.
      assert (Hq : (0 < n / 10)%N).
      { apply N.div_str_pos. lia. }
      assert (Hdiv : Z.of_N (n / 10) = Z.of_N n / 10) by (rewrite N2Z.inj_div; reflexivity).
      assert (Hlt' : Z.of_N (n / 10) < 10 ^ (Z.of_nat f + 1)).
      { rewrite Hdiv. apply Z.div_lt_upper_bound; [lia|].
        replace (Z.of_nat (S f) + 1) with (Z.of_nat f + 1 + 1) in Hlt by lia.
        rewrite Z.pow_add_r in Hlt by lia. change (10 ^ 1) with 10 in Hlt. lia. }
      destruct (IH (n / 10)%N Hq Hlt') as (H1 & H2 & H3).
      set (d := ndigits_fuel f (n / 10)) in *.
      split; [lia|].
      replace (1 + d - 1) with (d - 1 + 1) by lia.
      replace (1 + d) with (d + 1) by lia.
      rewrite !Z.pow_add_r by lia. change (10 ^ 1) with 10.
      rewrite Hdiv in H2, H3.
      pose proof (Z.div_mod (Z.of_N n) 10 ltac:(lia)).
      pose proof (Z.mod_pos_bound (Z.of_N n) 10 ltac:(lia)).
      lia.
Qed.

Lemma log2_fuel_enough (n : N) : (0 < n)%N ->
  Z.of_N n < 10 ^ (Z.of_nat (N.to_nat (N.log2 n)) + 1).
Proof.
  intros H.
  pose proof (N.log2_spec n H) as [_ Hup].
  rewrite N_nat_Z.
  assert (Z.of_N n < 2 ^ (Z.of_N (N.log2 n) + 1)).
  { replace (Z.of_N (N.log2 n) + 1) with (Z.of_N (N.succ (N.log2 n))) by lia.
    rewrite <- (N2Z.inj_pow 2). lia. }
  eapply Z.lt_le_trans; [eassumption|].
  apply Z.pow_le_mono_l. lia.
Qed.

Lemma ndigits_spec (n : N) : (0 < n)%N ->
  1 <= ndigits n /\ 10 ^ (ndigits n - 1) <= Z.of_N n < 10 ^ ndigits n.
Proof.
  intros H. apply ndigits_fuel_spec; [exact H | apply log2_fuel_enough; exact H].
Qed.

Lemma ndigits_zero : ndigits 0 = 1.
Proof. reflexivity. Qed.

Lemma ndigits_pos (n : N) : 1 <= ndigits n.
Proof.
  destruct (N.eq_dec n 0) as [->|H]; [rewrite ndigits_zero; lia|].
  apply ndigits_spec. lia.
Qed.

Lemma ndigits_unique (n : N) (d : Z) :
  1 <= d -> 10 ^ (d - 1) <= Z.of_N n < 10 ^ d -> ndigits n = d.
Proof.
  intros Hd [Hlo Hhi].
  assert (Hn : (0 < n)%N).
  { assert (0 < 10 ^ (d - 1)) by (apply Z.pow_pos_nonneg; lia). lia. }
  destruct (ndigits_spec n Hn) as (H1 & H2 & H3).
  destruct (Z.lt_trichotomy (ndigits n) d) as [Hl|[He|Hg]]; [|exact He|].
  - assert (10 ^ ndigits n <= 10 ^ (d - 1)) by (apply Z.pow_le_mono_r; lia). lia.
  - assert (10 ^ d <= 10 ^ (ndigits n - 1)) by (apply Z.pow_le_mono_r; lia). lia.
Qed.

Lemma ndigits_shift (n : N) (k : Z) : (0 < n)%N -> 0 <= k ->
  ndigits (n * pow10 k) = ndigits n + k.
Proof.
  intros Hn Hk. destruct (ndigits_spec n Hn) as (H1 & H2 & H3).
  apply ndigits_unique; [lia|].
  rewrite N2Z.inj_mul, pow10_Z by lia.
  replace (ndigits n + k - 1) with (ndigits n - 1 + k) by lia.
  rewrite !Z.pow_add_r by lia.
  assert (0 < 10 ^ k) by (apply Z.pow_pos_nonneg; lia).
  split; [apply Z.mul_le_mono_nonneg_r; lia | apply Z.mul_lt_mono_pos_r; lia].
Qed.

(** ** Digit strings *)

Lemma N_of_digits_app (l : list N) (d : N) :
  N_of_digits (l ++ [d]) = (10 * N_of_digits l + d)%N.
Proof. unfold N_of_digits. rewrite fold_left_app. reflexivity. Qed.

Lemma fold_digits_acc (l : list N) : forall acc,
  fold_left (fun a d => (10 * a + d)%N) l acc
  = (acc * pow10 (Z.of_nat (List.length l)) + N_of_digits l)%N.
Proof.
  unfold N_of_digits.
  induction l as [|d r IH]; intros acc.
  - simpl. change (pow10 0) with 1%N. lia.
  - cbn [fold_left List.length]. rewrite IH. rewrite (IH (10 * 0 + d)%N).
    rewrite Nat2Z.inj_succ. unfold Z.succ. rewrite pow10_succ by lia. lia.
Qed.

Lemma N_of_digits_cons (d : N) (l : list N) :
  N_of_digits (d :: l) = (d * pow10 (Z.of_nat (List.length l)) + N_of_digits l)%N.
Proof.
  unfold N_of_digits at 1. cbn [fold_left]. rewrite fold_digits_acc.
  replace (10 * 0 + d)%N with d by lia. reflexivity.
Qed.

Lemma N_of_digits_app_gen (a b : list N) :
  N_of_digits (a ++ b) = (N_of_digits a * pow10 (Z.of_nat (List.length b)) + N_of_digits b)%N.
Proof.
  unfold N_of_digits at 1. rewrite fold_left_app. rewrite fold_digits_acc. reflexivity.
Qed.

Lemma N_of_digits_zeros (k : nat) : N_of_digits (repeat 0%N k) = 0%N.
Proof.
  induction k as [|k IH]; [reflexivity|].
  cbn [repeat]. rewrite N_of_digits_cons, IH. lia.
Qed.

Lemma digits_fuel_spec (fuel : nat) : forall (n : N) (acc : pystr),
  Z.of_N n < 10 ^ (Z.of_nat fuel + 1) ->
  exists ds, digits_fuel fuel n acc = map digit_char ds ++ acc /\
             Forall small ds /\ N_of_digits ds = n /\
             Z.of_nat (List.length ds) = ndigits_fuel fuel n /\
             last ds 0%N = (n mod 10)%N /\
             (n <> 0%N -> hd 0%N ds <> 0%N).
Proof.
  induction fuel as [|f IH]; intros n acc Hlt.
  - change (10 ^ (Z.of_nat 0 + 1)) with 10 in Hlt.
    exists [n]. refine (conj _ (conj _ (conj _ (conj _ (conj _ _))))).
    + reflexivity.
    + constructor; [unfold small; lia | constructor].
    + unfold N_of_digits. cbn. destruct n; reflexivity.
    + reflexivity.
    + cbn [last]. symmetry. apply N.mod_small. lia.
    + auto.
  - cbn [digits_fuel ndigits_fuel]. destruct (n <? 10)%N eqn:E.
    + apply N.ltb_lt in E. exists [n].
      refine (conj _ (conj _ (conj _ (conj _ (conj _ _))))).
      * reflexivity.
      * constructor; [exact E | constructor].
      * unfold N_of_digits. cbn. destruct n; reflexivity.
      * reflexivity.
      * cbn [last]. symmetry. apply N.mod_small. lia.
      * auto.
    + apply N.ltb_ge in E.
      assert (Hdiv : Z.of_N (n / 10) = Z.of_N n / 10) by (rewrite N2Z.inj_div; reflexivity).
      assert (Hlt' : Z.of_N (n / 10) < 10 ^ (Z.of_nat f + 1)).
      { rewrite Hdiv. apply Z.div_lt_upper_bound; [lia|].
        replace (Z.of_nat (S f) + 1) with (Z.of_nat f + 1 + 1) in Hlt by lia.
        rewrite Z.pow_add_r in Hlt by lia. change (10 ^ 1) with 10 in Hlt. lia. }
      destruct (IH (n / 10)%N (digit_char (n mod 10) :: acc) Hlt')
        as (ds & Heq & Hsmall & Hval & Hlen & Hlast & Hhd).
      exists (ds ++ [(n mod 10)%N]).
      refine (conj _ (conj _ (conj _ (conj _ (conj _ _))))).
      * rewrite Heq, map_app, <- app_assoc. reflexivity.
      * apply Forall_app. split; [exact Hsmall|].
        constructor; [|constructor]. unfold small. apply N.mod_lt. lia.
      * rewrite N_of_digits_app, Hval.
        pose proof (N.div_mod n 10 ltac:(lia)). lia.
      * rewrite length_app. cbn [List.length]. lia.
      * apply last_last.
      * intros _. assert (Hq : (n / 10 <> 0)%N).
        { intros Hz. apply N.div_small_iff in Hz; lia. }
        specialize (Hhd Hq). destruct ds as [|d r]; [exfalso; apply Hhd; reflexivity|].
        exact Hhd.
Qed.

Lemma str_of_N_spec (n : N) :
  exists ds, str_of_N n = map digit_char ds /\
             Forall small ds /\ N_of_digits ds = n /\
             Z.of_nat (List.length ds) = ndigits n /\
             last ds 0%N = (n mod 10)%N /\
             (n <> 0%N -> hd 0%N ds <> 0%N).
Proof.
  assert (Hlt : Z.of_N n < 10 ^ (Z.of_nat (N.to_nat (N.log2 n)) + 1)).
  { destruct (N.eq_dec n 0) as [->|Hn]; [reflexivity|].
    apply log2_fuel_enough. lia. }
  destruct (digits_fuel_spec _ n [] Hlt) as (ds & Heq & H).
  exists ds. rewrite app_nil_r in Heq. split; [exact Heq | exact H].
Qed.

(** Reading digits back *)
Lemma digit_char_is_digit d : small d -> is_ascii_digit (digit_char d) = true.
Proof.
  unfold small, is_ascii_digit, digit_char. intros H.
  apply andb_true_intro. split; apply N.leb_le; lia.
Qed.

Lemma digit_char_value d : (digit_char d - 48 = d)%N.
Proof. unfold digit_char. lia. Qed.

Lemma span_digits_stop rest : stops rest -> span_digits rest = ([], rest).
Proof. destruct rest as [|c r]; simpl; [reflexivity|]. intros ->. reflexivity. Qed.

Lemma span_digits_app (ds : list N) (rest : pystr) :
  Forall small ds -> stops rest ->
  span_digits (map digit_char ds ++ rest) = (ds, rest).
Proof.
  intros Hs Hr. induction Hs as [|d r Hd Hrs IH].
  - apply span_digits_stop. exact Hr.
  - cbn [map app span_digits]. rewrite (digit_char_is_digit d Hd), IH.
    rewrite digit_char_value. reflexivity.
Qed.

Lemma len_str_of_N n : len (str_of_N n) = ndigits n.
Proof.
  destruct (str_of_N_spec n) as (ds & Heq & _ & _ & Hlen & _).
  unfold len. rewrite Heq, length_map. exact Hlen.
Qed.

(** ** Values that fit the context *)

Lemma fix_fits ctx s c e :
  c <> 0%N -> fits ctx c e -> _fix ctx (Finite s c e) = Return (Finite s c e).
Proof.
  intros Hc (Hd & He & Ha). unfold adjusted in Ha. unfold _fix.
  apply N.eqb_neq in Hc. rewrite Hc.
  assert (E1 : (ndigits c + e - prec ctx >? Etop ctx) = false).
  { rewrite Z.gtb_ltb. apply Z.ltb_ge. unfold Etop. lia. }
  rewrite E1. cbv zeta.
  assert (E2 : (e <? Z.max (ndigits c + e - prec ctx) (Etiny ctx)) = false).
  { apply Z.ltb_ge. lia. }
  rewrite E2. reflexivity.
Qed.

Lemma strip_zeros_to_spec (fuel : nat) : forall (c : N) (e ideal : Z),
  (0 < c)%N ->
  exists c' e', strip_zeros_to fuel c e ideal = (c', e') /\
    e <= e' /\ c = (c' * pow10 (e' - e))%N /\ (0 < c')%N /\
    ((c' mod 10 <> 0)%N \/ ideal <= e' \/ e' - e = Z.of_nat fuel).
Proof.
  induction fuel as [|f IH]; intros c e ideal Hc.
  - exists c, e. cbn [strip_zeros_to].
    replace (e - e) with 0 by lia. change (pow10 0) with 1%N.
    repeat split; lia.
  - cbn [strip_zeros_to].
    destruct (e <? ideal) eqn:E1; cbn [andb].
    + destruct (c mod 10 =? 0)%N eqn:E2.
      * apply N.eqb_eq in E2.
        assert (Hq : (0 < c / 10)%N).
        { pose proof (N.div_mod c 10 ltac:(lia)). lia. }
        destruct (IH (c / 10)%N (e + 1) ideal Hq) as (c' & e' & Heq & Hle & Hval & Hpos & Hstop).
        exists c', e'. rewrite Heq.
        refine (conj eq_refl (conj _ (conj _ (conj Hpos _)))).
        -- lia.
        -- replace (e' - e) with (e' - (e + 1) + 1) by lia.
           rewrite pow10_succ by lia.
           pose proof (N.div_mod c 10 ltac:(lia)). lia.
        -- destruct Hstop as [H|[H|H]]; [left; exact H | right; left; exact H | right; right; lia].
      * apply N.eqb_neq in E2. exists c, e.
        replace (e - e) with 0 by lia. change (pow10 0) with 1%N.
        repeat split; try lia; auto.
    + apply Z.ltb_ge in E1. exists c, e.
      replace (e - e) with 0 by lia. change (pow10 0) with 1%N.
      repeat split; try lia; auto.
Qed.

Lemma normalize_fits ctx s c e :
  c <> 0%N -> fits ctx c e ->
  exists c' e', normalize ctx (Finite s c e) = Return (Finite s c' e') /\
    e <= e' /\ c = (c' * pow10 (e' - e))%N /\ (0 < c')%N /\ (c' mod 10 <> 0)%N.
Proof.
  intros Hc Hfit. unfold normalize. cbn [_check_nans1].
  rewrite (fix_fits ctx s c e Hc Hfit). cbn [bind].
  pose proof Hc as Hc'. apply N.eqb_neq in Hc'. rewrite Hc'.
  assert (Hpos : (0 < c)%N) by lia.
  destruct (strip_zeros_to_spec (Z.to_nat (ndigits c)) c e Emax Hpos)
    as (c' & e' & Heq & Hle & Hval & Hpos' & Hstop).
  rewrite Heq. exists c', e'.
  refine (conj eq_refl (conj Hle (conj Hval (conj Hpos' _)))).
  destruct Hfit as (Hd & He & Ha). unfold adjusted in Ha.
  assert (Hnd : ndigits c = ndigits c' + (e' - e)).
  { rewrite Hval at 1. apply ndigits_shift; lia. }
  pose proof (ndigits_pos c') as Hnp.
  destruct Hstop as [H|[H|H]]; [exact H| |].
  - assert (Hone : ndigits c' = 1) by lia.
    destruct (ndigits_spec c' Hpos') as (_ & _ & Hup). rewrite Hone in Hup.
    change (10 ^ 1) with 10 in Hup.
    rewrite N.mod_small by lia. lia.
  - rewrite Z2Nat.id in H by lia. lia.
Qed.

(** ** Reading plain numerals *)

Lemma plain_not_space c : plain_char c = true -> py_isspace c = false.
Proof.
  unfold plain_char, is_ascii_digit, py_isspace. intros H.
  repeat (apply orb_prop in H; destruct H as [H|H]).
  - apply andb_prop in H. destruct H as [H1 H2].
    apply N.leb_le in H1, H2.
    repeat (apply orb_false_intro);
      try (apply andb_false_iff); try (apply N.eqb_neq; lia);
      try (left; apply N.leb_gt; lia); try (right; apply N.leb_gt; lia).
  - apply N.eqb_eq in H. subst. reflexivity.
  - apply N.eqb_eq in H. subst. reflexivity.
Qed.

Lemma lstrip_plain s : forallb plain_char s = true -> lstrip s = s.
Proof.
  destruct s as [|c r]; [reflexivity|]. cbn [forallb lstrip]. intros H.
  apply andb_prop in H. destruct H as [H _].
  rewrite (plain_not_space c H). reflexivity.
Qed.

Lemma forallb_rev {A} (f : A -> bool) l : forallb f (rev l) = forallb f l.
Proof.
  induction l as [|a r IH]; [reflexivity|].
  cbn [rev forallb]. rewrite forallb_app, IH. cbn. rewrite andb_true_r. apply andb_comm.
Qed.

Lemma strip_plain s : forallb plain_char s = true -> strip s = s.
Proof.
  intros H. unfold strip, rstrip. rewrite (lstrip_plain s H).
  rewrite lstrip_plain by (rewrite forallb_rev; exact H).
  apply rev_involutive.
Qed.

Lemma filter_plain s :
  forallb plain_char s = true -> filter (fun c => negb (c =? 95)%N) s = s.
Proof.
  induction s as [|c r IH]; [reflexivity|]. cbn [forallb filter]. intros H.
  apply andb_prop in H. destruct H as [Hc Hr].
  assert (E : (c =? 95)%N = false).
  { apply N.eqb_neq. intros ->. discriminate Hc. }
  rewrite E. cbn [negb]. rewrite IH by exact Hr. reflexivity.
Qed.

Lemma plain_ascii c : plain_char c = true -> ((0 <? c) && (c <=? 127))%N = true.
Proof.
  unfold plain_char, is_ascii_digit. intros H.
  repeat (apply orb_prop in H; destruct H as [H|H]).
  - apply andb_prop in H. destruct H as [H1 H2]. apply N.leb_le in H1, H2.
    apply andb_true_intro. split; [apply N.ltb_lt | apply N.leb_le]; lia.
  - apply N.eqb_eq in H. subst. reflexivity.
  - apply N.eqb_eq in H. subst. reflexivity.
Qed.

Lemma numeric_as_ascii_plain s :
  forallb plain_char s = true -> numeric_as_ascii s = Some s.
Proof.
  induction s as [|c r IH]; [reflexivity|]. cbn [forallb numeric_as_ascii]. intros H.
  apply andb_prop in H. destruct H as [Hc Hr].
  rewrite IH by exact Hr. rewrite (plain_ascii c Hc). reflexivity.
Qed.

Lemma digit_plain d : small d -> plain_char (digit_char d) = true.
Proof. intros H. unfold plain_char. rewrite digit_char_is_digit by exact H. reflexivity. Qed.

Lemma digits_plain ds : Forall small ds -> forallb plain_char (map digit_char ds) = true.
Proof.
  induction 1 as [|d r Hd Hr IH]; [reflexivity|].
  cbn [map forallb]. rewrite digit_plain by exact Hd. exact IH.
Qed.

Lemma numeral_plain s ip fp :
  Forall small ip -> Forall small fp -> forallb plain_char (numeral s ip fp) = true.
Proof.
  intros Hi Hf. unfold numeral. rewrite !forallb_app.
  rewrite digits_plain by exact Hi.
  assert (Hs : forallb plain_char (sign_str s) = true) by (destruct s; reflexivity).
  rewrite Hs. cbn [andb].
  destruct fp as [|d r]; [reflexivity|].
  cbn [forallb]. rewrite digits_plain by exact Hf. reflexivity.
Qed.

Lemma to_lower_digit d : small d -> to_lower (digit_char d) = digit_char d.
Proof.
  unfold small, to_lower, digit_char. intros H.
  assert (E : (65 <=? 48 + d)%N = false) by (apply N.leb_gt; lia).
  rewrite E. reflexivity.
Qed.

(** Reading a plain numeral *)
Lemma parse_finite_numeral s ip fp :
  ip <> [] -> Forall small ip -> Forall small fp ->
  MIN_ETINY <= - Z.of_nat (List.length fp) ->
  adjusted (N_of_digits (ip ++ fp)) (- Z.of_nat (List.length fp)) <= MAX_EMAX ->
  parse_finite s (map digit_char ip ++
                    match fp with [] => [] | _ => 46%N :: map digit_char fp end)
  = Some (Finite s (N_of_digits (ip ++ fp)) (- Z.of_nat (List.length fp))).
Proof.
  intros Hne Hi Hf Hmin Hadj. unfold parse_finite.
  assert (Hspan : span_digits
            (map digit_char ip ++ match fp with [] => [] | _ => 46%N :: map digit_char fp end)
          = (ip, match fp with [] => [] | _ => 46%N :: map digit_char fp end)).
  { apply span_digits_app; [exact Hi|]. destruct fp; simpl; reflexivity. }
  rewrite Hspan. clear Hspan.
  assert (Hne' : ip ++ fp <> []) by (destruct ip; [contradiction | discriminate]).
  apply Z.leb_le in Hmin, Hadj.
  destruct fp as [|d r].
  - cbv iota beta. destruct (ip ++ []) as [|d0 r0] eqn:Eapp; [contradiction|].
    cbn [parse_exponent List.length] in *.
    change (0 - Z.of_nat 0) with (- Z.of_nat 0).
    rewrite Hmin, Hadj. reflexivity.
  - cbv iota beta.
    assert (Hsp : span_digits (map digit_char (d :: r)) = (d :: r, [])).
    { rewrite <- (app_nil_r (map digit_char (d :: r))).
      apply span_digits_app; [exact Hf | exact I]. }
    rewrite Hsp.
    destruct (ip ++ d :: r) as [|d0 r0] eqn:Eapp; [contradiction|].
    cbn [parse_exponent].
    replace (0 - Z.of_nat (List.length (d :: r))) with (- Z.of_nat (List.length (d :: r))) by lia.
    rewrite Hmin, Hadj. reflexivity.
Qed.

Lemma small_cases d : small d ->
  d = 0%N \/ d = 1%N \/ d = 2%N \/ d = 3%N \/ d = 4%N \/
  d = 5%N \/ d = 6%N \/ d = 7%N \/ d = 8%N \/ d = 9%N.
Proof. unfold small. lia. Qed.

Lemma pystr_eqb_head_ne a l b m : a <> b -> pystr_eqb (a :: l) (b :: m) = false.
Proof.
  intros H. unfold pystr_eqb. destruct (list_eq_dec _ _ _) as [E|]; [|reflexivity].
  congruence.
Qed.

Lemma parse_decimal_digit_first s d rest :
  small d ->
  parse_decimal (sign_str s ++ digit_char d :: rest) = parse_finite s (digit_char d :: rest).
Proof.
  intros Hd. unfold parse_decimal.
  change (py "inf") with [105; 110; 102]%N.
  change (py "infinity") with [105; 110; 102; 105; 110; 105; 116; 121]%N.
  destruct s;
    destruct (small_cases d Hd) as [->|[->|[->|[->|[->|[->|[->|[->|[->| ->]]]]]]]]];
    cbn [sign_str app digit_char N.add Pos.add Pos.succ map to_lower N.leb N.compare
         Pos.compare Pos.compare_cont andb];
    rewrite !pystr_eqb_head_ne by discriminate; reflexivity.
Qed.

Lemma Decimal_of_str_numeral s ip fp :
  ip <> [] -> Forall small ip -> Forall small fp ->
  MIN_ETINY <= - Z.of_nat (List.length fp) ->
  adjusted (N_of_digits (ip ++ fp)) (- Z.of_nat (List.length fp)) <= MAX_EMAX ->
  Decimal_of_str (numeral s ip fp)
  = Return (Finite s (N_of_digits (ip ++ fp)) (- Z.of_nat (List.length fp))).
Proof.
  intros Hne Hi Hf Hmin Hadj. unfold Decimal_of_str.
  pose proof (numeral_plain s ip fp Hi Hf) as Hplain.
  rewrite (strip_plain _ Hplain), (filter_plain _ Hplain), (numeric_as_ascii_plain _ Hplain).
  unfold numeral. destruct ip as [|d r]; [contradiction|].
  cbn [map app]. inversion Hi as [|? ? Hd Hr]; subst.
  rewrite parse_decimal_digit_first by exact Hd.
  change (digit_char d :: map digit_char r ++
            match fp with [] => [] | _ => 46%N :: map digit_char fp end)
    with (map digit_char (d :: r) ++
            match fp with [] => [] | _ => 46%N :: map digit_char fp end).
  rewrite parse_finite_numeral by assumption. reflexivity.
Qed.

(** ** The layout of [format(d, "f")] *)

Lemma zeros_digits k : zeros k = map digit_char (repeat 0%N (Z.to_nat k)).
Proof. unfold zeros. rewrite map_repeat. reflexivity. Qed.

Lemma len_map_digit ds : len (map digit_char ds) = Z.of_nat (List.length ds).
Proof. unfold len. rewrite length_map. reflexivity. Qed.

Lemma format_f_parts s c e ds :
  c <> 0%N -> ds <> [] -> str_of_N c = map digit_char ds ->
  format_f (Finite s c e) = numeral s (fst (plain_parts ds e)) (snd (plain_parts ds e)).
Proof.
  intros Hc Hne Heq. unfold format_f, numeral, plain_parts. cbn [sign_of].
  apply N.eqb_neq in Hc. rewrite Hc. cbn [andb]. rewrite Heq, len_map_digit.
  change (py "-") with [45%N]. change (py "0") with [48%N]. change (py ".") with [46%N].
  fold (sign_str s). f_equal.
  set (L := Z.of_nat (List.length ds)).
  assert (HL : 0 < L).
  { subst L. destruct ds; [contradiction|]. cbn [List.length]. lia. }
  destruct (e >=? 0) eqn:E0.
  - rewrite Z.geb_leb in E0. apply Z.leb_le in E0.
    assert (E1 : (e + L <? 0) = false) by (apply Z.ltb_ge; lia). rewrite E1.
    cbn [fst snd]. rewrite app_nil_r.
    destruct (e + L >? L) eqn:E2.
    + rewrite zeros_digits, map_app. replace (e + L - L) with e by lia.
      rewrite app_nil_r. reflexivity.
    + rewrite Z.gtb_ltb in E2. apply Z.ltb_ge in E2.
      assert (e = 0) by lia. subst e.
      unfold take, drop. replace (Z.to_nat (0 + L)) with (List.length (map digit_char ds))
        by (rewrite length_map; subst L; lia).
      rewrite firstn_all, skipn_all. rewrite map_app. cbn [Z.to_nat repeat map].
      rewrite !app_nil_r.
      destruct (map digit_char ds) eqn:Em; [|reflexivity].
      destruct ds; [contradiction | discriminate Em].
  - rewrite Z.geb_leb in E0. apply Z.leb_gt in E0.
    destruct (e + L <? 0) eqn:E1.
    + apply Z.ltb_lt in E1.
      assert (E3 : (e + L <=? 0) = true) by (apply Z.leb_le; lia). rewrite E3.
      cbn [fst snd map app].
      rewrite zeros_digits, <- map_app.
      destruct (repeat 0%N (Z.to_nat (- (e + L))) ++ ds) eqn:Ef.
      * apply app_eq_nil in Ef. destruct Ef as [_ Ef]. contradiction.
      * reflexivity.
    + apply Z.ltb_ge in E1.
      assert (E2 : (e + L >? L) = false) by (rewrite Z.gtb_ltb; apply Z.ltb_ge; lia).
      rewrite E2. unfold take, drop.
      rewrite firstn_map, skipn_map.
      destruct (e + L <=? 0) eqn:E3.
      * apply Z.leb_le in E3. assert (Hz : e + L = 0) by lia. rewrite Hz.
        cbn [Z.to_nat firstn skipn map fst snd Z.opp repeat app].
        destruct ds as [|d r]; [contradiction|]. reflexivity.
      * apply Z.leb_gt in E3. cbn [fst snd].
        destruct (firstn (Z.to_nat (e + L)) ds) as [|d r] eqn:Ef.
        { exfalso. apply (f_equal (@List.length N)) in Ef.
          rewrite length_firstn in Ef. cbn [List.length] in Ef. lia. }
        destruct (skipn (Z.to_nat (e + L)) ds) as [|d' r'] eqn:Es.
        { exfalso. apply (f_equal (@List.length N)) in Es.
          rewrite length_skipn in Es. cbn [List.length] in Es. lia. }
        reflexivity.
Qed.

Lemma Forall_repeat_zero k : Forall small (repeat 0%N k).
Proof. induction k; constructor; [unfold small; lia | assumption]. Qed.

Lemma Forall_firstn_small k ds : Forall small ds -> Forall small (firstn k ds).
Proof.
  intros H. rewrite <- (firstn_skipn k ds) in H. apply Forall_app in H. tauto.
Qed.

Lemma Forall_skipn_small k ds : Forall small ds -> Forall small (skipn k ds).
Proof.
  intros H. rewrite <- (firstn_skipn k ds) in H. apply Forall_app in H. tauto.
Qed.

Lemma plain_parts_small ds e :
  Forall small ds ->
  Forall small (fst (plain_parts ds e)) /\ Forall small (snd (plain_parts ds e)).
Proof.
  intros H. unfold plain_parts.
  destruct (e >=? 0); [|destruct (_ <=? 0)]; cbn [fst snd]; split;
    repeat (apply Forall_app; split);
    auto using Forall_repeat_zero, Forall_firstn_small, Forall_skipn_small.
  constructor; [unfold small; lia | constructor].
Qed.

Lemma plain_parts_int_nonempty ds e : ds <> [] -> fst (plain_parts ds e) <> [].
Proof.
  intros H. unfold plain_parts.
  destruct (e >=? 0) eqn:E0; [|destruct (_ <=? 0) eqn:E1]; cbn [fst].
  - destruct ds; [contradiction | discriminate].
  - discriminate.
  - apply Z.leb_gt in E1. intros Ef. apply (f_equal (@List.length N)) in Ef.
    rewrite length_firstn in Ef. cbn [List.length] in Ef.
    destruct ds; [contradiction|]. cbn [List.length] in *. lia.
Qed.

Lemma plain_parts_frac_length ds e :
  - Z.of_nat (List.length (snd (plain_parts ds e))) = Z.min e 0.
Proof.
  unfold plain_parts.
  destruct (e >=? 0) eqn:E0; [|destruct (_ <=? 0) eqn:E1]; cbn [snd].
  - rewrite Z.geb_leb in E0. apply Z.leb_le in E0. cbn [List.length]. lia.
  - rewrite Z.geb_leb in E0. apply Z.leb_gt in E0. apply Z.leb_le in E1.
    rewrite length_app, repeat_length. lia.
  - rewrite Z.geb_leb in E0. apply Z.leb_gt in E0. apply Z.leb_gt in E1.
    rewrite length_skipn. lia.
Qed.

Lemma plain_parts_value ds e :
  N_of_digits (fst (plain_parts ds e) ++ snd (plain_parts ds e))
  = (N_of_digits ds * pow10 e)%N.
Proof.
  unfold plain_parts.
  destruct (e >=? 0) eqn:E0; [|destruct (_ <=? 0) eqn:E1]; cbn [fst snd].
  - rewrite Z.geb_leb in E0. apply Z.leb_le in E0.
    rewrite app_nil_r, N_of_digits_app_gen, N_of_digits_zeros, repeat_length.
    rewrite Z2Nat.id by lia. lia.
  - rewrite Z.geb_leb in E0. apply Z.leb_gt in E0.
    rewrite pow10_neg by lia.
    change ([0%N] ++ repeat 0%N (Z.to_nat (- (e + Z.of_nat (List.length ds)))) ++ ds)
      with ((0%N :: repeat 0%N (Z.to_nat (- (e + Z.of_nat (List.length ds))))) ++ ds).
    rewrite N_of_digits_app_gen.
    change (0%N :: repeat 0%N ?k) with (repeat 0%N (S k)).
    rewrite N_of_digits_zeros. lia.
  - rewrite Z.geb_leb in E0. apply Z.leb_gt in E0.
    rewrite pow10_neg by lia. rewrite firstn_skipn. lia.
Qed.

Lemma last_append {A} (l1 l2 : list A) (d : A) :
  l2 <> [] -> last (l1 ++ l2) d = last l2 d.
Proof.
  intros H. induction l1 as [|a r IH]; [reflexivity|].
  cbn [app]. destruct (r ++ l2) eqn:E.
  - apply app_eq_nil in E. destruct E as [_ E]. contradiction.
  - rewrite <- E in *. cbn [last]. rewrite E. rewrite <- E. exact IH.
Qed.

Lemma plain_parts_last ds e :
  ds <> [] -> snd (plain_parts ds e) <> [] ->
  last (snd (plain_parts ds e)) 0%N = last ds 0%N.
Proof.
  intros Hne. unfold plain_parts.
  destruct (e >=? 0) eqn:E0; [|destruct (_ <=? 0) eqn:E1]; cbn [snd]; intros Hf.
  - contradiction.
  - apply last_append. exact Hne.
  - set (k := Z.to_nat (e + Z.of_nat (List.length ds))) in *.
    transitivity (last (firstn k ds ++ skipn k ds) 0%N).
    + symmetry. apply last_append. exact Hf.
    + rewrite firstn_skipn. reflexivity.
Qed.

Lemma rstrip_char_last ch l x : x <> ch -> rstrip_char ch (l ++ [x]) = l ++ [x].
Proof.
  intros H. unfold rstrip_char. rewrite rev_app_distr. cbn [rev app lstrip_char].
  apply N.eqb_neq in H. rewrite H. cbn [rev]. rewrite rev_involutive. reflexivity.
Qed.

Lemma digit_char_not_point d : digit_char d <> 46%N.
Proof. unfold digit_char. lia. Qed.

Lemma digit_char_not_zero d : d <> 0%N -> digit_char d <> 48%N.
Proof. unfold digit_char. lia. Qed.

Lemma contains_digits ds : contains 46 (map digit_char ds) = false.
Proof.
  unfold contains. induction ds as [|d r IH]; [reflexivity|].
  cbn [map existsb]. rewrite IH.
  assert (E : (46 =? digit_char d)%N = false).
  { apply N.eqb_neq. pose proof (digit_char_not_point d). congruence. }
  rewrite E. reflexivity.
Qed.

Lemma numeral_ends s ip fp :
  ip <> [] ->
  exists pre x, numeral s ip fp = pre ++ [digit_char x] /\
                x = last (match fp with [] => ip | _ => fp end) 0%N.
Proof.
  intros Hne. unfold numeral. destruct fp as [|d r].
  - rewrite app_nil_r.
    exists (sign_str s ++ map digit_char (removelast ip)), (last ip 0%N).
    split; [|reflexivity].
    rewrite <- app_assoc. f_equal.
    change [digit_char (last ip 0%N)] with (map digit_char [last ip 0%N]).
    rewrite <- map_app. f_equal. apply app_removelast_last. exact Hne.
  - assert (Hf : d :: r <> []) by discriminate.
    exists (sign_str s ++ map digit_char ip ++ 46%N :: map digit_char (removelast (d :: r))).
    exists (last (d :: r) 0%N). split; [|reflexivity].
    rewrite <- !app_assoc. f_equal. f_equal. cbn [app]. f_equal.
    change [digit_char (last (d :: r) 0%N)] with (map digit_char [last (d :: r) 0%N]).
    rewrite <- map_app. f_equal. apply app_removelast_last. exact Hf.
Qed.

Lemma tidy_numeral s ip fp :
  ip <> [] -> (fp <> [] -> last fp 0%N <> 0%N) ->
  (if contains 46 (numeral s ip fp)
   then rstrip_char 46 (rstrip_char 48 (numeral s ip fp))
   else numeral s ip fp) = numeral s ip fp.
Proof.
  intros Hne Hlast.
  destruct (contains 46 (numeral s ip fp)) eqn:Ec; [|reflexivity].
  destruct fp as [|d r].
  - exfalso. unfold numeral, contains in Ec. rewrite app_nil_r, existsb_app in Ec.
    fold (contains 46 (map digit_char ip)) in Ec. rewrite contains_digits in Ec.
    destruct s; discriminate Ec.
  - destruct (numeral_ends s ip (d :: r) Hne) as (pre & x & Heq & Hx).
    rewrite Heq. rewrite (rstrip_char_last 48).
    + apply rstrip_char_last. apply digit_char_not_point.
    + apply digit_char_not_zero. subst x. apply Hlast. discriminate.
Qed.

Lemma numeral_nonempty s ip fp : ip <> [] -> numeral s ip fp <> [].
Proof.
  intros Hne. destruct (numeral_ends s ip fp Hne) as (pre & x & Heq & _).
  rewrite Heq. destruct pre; discriminate.
Qed.

Lemma last_snoc {A} (l : list A) (x d : A) : last (l ++ [x]) d = x.
Proof. apply last_last. Qed.

Lemma numeral_last s ip fp :
  ip <> [] -> (fp <> [] -> last fp 0%N <> 0%N) ->
  last (numeral s ip fp) 0%N <> 46%N /\
  (contains 46 (numeral s ip fp) = true -> last (numeral s ip fp) 0%N <> 48%N).
Proof.
  intros Hne Hlast.
  destruct (numeral_ends s ip fp Hne) as (pre & x & Heq & Hx).
  rewrite Heq, last_snoc. split; [apply digit_char_not_point|].
  rewrite <- Heq. intros Hc. destruct fp as [|d r].
  - exfalso. unfold numeral, contains in Hc. rewrite app_nil_r, existsb_app in Hc.
    fold (contains 46 (map digit_char ip)) in Hc. rewrite contains_digits in Hc.
    destruct s; discriminate Hc.
  - apply digit_char_not_zero. subst x. apply Hlast. discriminate.
Qed.

(** Two representations of one number compare equal *)
Lemma cmp_same_value s c1 e1 c2 e2 :
  (0 < c1)%N -> (0 < c2)%N ->
  (c1 * pow10 (e1 - e2) = c2 * pow10 (e2 - e1))%N ->
  _cmp (Finite s c1 e1) (Finite s c2 e2) = 0.
Proof.
  intros H1 H2 H. unfold _cmp.
  assert (E1 : (c1 =? 0)%N = false) by (apply N.eqb_neq; lia).
  assert (E2 : (c2 =? 0)%N = false) by (apply N.eqb_neq; lia).
  rewrite E1, E2.
  assert (Es1 : negb s && s = false) by (destruct s; reflexivity).
  assert (Es2 : s && negb s = false) by (destruct s; reflexivity).
  rewrite Es1, Es2. cbv zeta.
  assert (Hadj : adjusted c1 e1 = adjusted c2 e2).
  { unfold adjusted. destruct (Z_le_gt_dec e2 e1) as [Hle|Hgt].
    - rewrite (pow10_neg (e2 - e1)) in H by lia.
      assert (Hn : ndigits c2 = ndigits c1 + (e1 - e2)).
      { replace c2 with (c1 * pow10 (e1 - e2))%N by lia. apply ndigits_shift; lia. }
      lia.
    - rewrite (pow10_neg (e1 - e2)) in H by lia.
      assert (Hn : ndigits c1 = ndigits c2 + (e2 - e1)).
      { replace c1 with (c2 * pow10 (e2 - e1))%N by lia. apply ndigits_shift; lia. }
      lia. }
  rewrite Hadj, Z.eqb_refl, H, N.eqb_refl. reflexivity.
Qed.

(** ** Formatting *)

Lemma format_decimal_normalized ctx x s c e :
  normalize ctx x = Return (Finite s c e) ->
  format_decimal ctx x
  = Return (let t := format_f (Finite s c e) in
            let t := if contains 46 t then rstrip_char 46 (rstrip_char 48 t) else t in
            match t with [] => py "0" | _ => t end).
Proof.
  intros H. unfold format_decimal. rewrite H. cbn [bind].
  unfold to_integral_value. cbn [_check_nans1].
  destruct (e >=? 0); cbn [bind];
    unfold dec_eq;
    match goal with
    | |- context [_check_nans ctx ?a ?b] =>
        replace (_check_nans ctx a b) with (@None (result Decimal))
          by (unfold _rescale; repeat match goal with
                                      | |- context [if ?b then _ else _] => destruct b
                                      end; reflexivity)
    end; cbn [bind];
    match goal with
    | |- context [_cmp ?a ?b =? 0] => destruct (_cmp a b =? 0)
    end; reflexivity.
Qed.

Lemma format_decimal_zero ctx s e :
  format_decimal ctx (Finite s 0 e) = Return (if s then py "-0" else py "0").
Proof.
  rewrite (format_decimal_normalized ctx _ s 0%N 0) by reflexivity.
  destruct s; reflexivity.
Qed.

Lemma format_decimal_fits ctx s c e :
  c <> 0%N -> fits ctx c e ->
  exists c' e' ds,
    e <= e' /\ c = (c' * pow10 (e' - e))%N /\ (0 < c')%N /\
    ds <> [] /\ Forall small ds /\ N_of_digits ds = c' /\
    Z.of_nat (List.length ds) = ndigits c' /\ last ds 0%N <> 0%N /\
    hd 0%N ds <> 0%N /\
    format_decimal ctx (Finite s c e)
    = Return (numeral s (fst (plain_parts ds e')) (snd (plain_parts ds e'))).
Proof.
  intros Hc Hfit.
  destruct (normalize_fits ctx s c e Hc Hfit) as (c' & e' & Hn & Hle & Hval & Hpos & Hmod).
  destruct (str_of_N_spec c') as (ds & Hstr & Hsmall & Hds & Hlen & Hlast & Hhd).
  assert (Hne : ds <> []).
  { intros ->. cbn in Hds. lia. }
  exists c', e', ds.
  refine (conj Hle (conj Hval (conj Hpos (conj Hne (conj Hsmall (conj Hds (conj Hlen _))))))).
  split; [rewrite Hlast; exact Hmod|].
  split; [apply Hhd; lia|].
  rewrite (format_decimal_normalized ctx _ s c' e' Hn). cbv zeta.
  rewrite (format_f_parts s c' e' ds ltac:(lia) Hne Hstr).
  rewrite tidy_numeral.
  - destruct (numeral s _ _) eqn:E; [|reflexivity].
    exfalso. revert E. apply numeral_nonempty. apply plain_parts_int_nonempty. exact Hne.
  - apply plain_parts_int_nonempty. exact Hne.
  - intros Hf. rewrite plain_parts_last by assumption. rewrite Hlast. exact Hmod.
Qed.

(** ** The shortest numeral *)

(** When two finite values compare equal *)
Lemma cmp_zero_inv s1 c1 e1 s2 c2 e2 :
  _cmp (Finite s1 c1 e1) (Finite s2 c2 e2) = 0 ->
  (c1 = 0%N /\ c2 = 0%N) \/
  ((0 < c1)%N /\ (0 < c2)%N /\ s1 = s2 /\
   (c1 * pow10 (e1 - e2) = c2 * pow10 (e2 - e1))%N).
Proof.
  unfold _cmp.
  destruct (c1 =? 0)%N eqn:E1.
  - apply N.eqb_eq in E1. destruct (c2 =? 0)%N eqn:E2.
    + apply N.eqb_eq in E2. auto.
    + destruct s2; discriminate.
  - apply N.eqb_neq in E1. destruct (c2 =? 0)%N eqn:E2.
    + destruct s1; discriminate.
    + apply N.eqb_neq in E2.
      destruct s1, s2; cbn [negb andb]; try discriminate;
        cbv zeta;
        (destruct (_ =? _) eqn:Ea;
         [destruct (_ =? _)%N eqn:Ep;
          [apply N.eqb_eq in Ep; intros _; right; repeat split; (lia || exact Ep)
          |destruct (_ <? _)%N; discriminate]
         |destruct (_ >? _); discriminate]).
Qed.

(** Bounds of a digit list *)
Lemma N_of_digits_upper l : Forall small l ->
  Z.of_N (N_of_digits l) < 10 ^ Z.of_nat (List.length l).
Proof.
  induction l as [|d r IH] using rev_ind; intros H.
  - cbn. lia.
  - apply Forall_app in H. destruct H as [Hr Hd]. inversion Hd; subst.
    rewrite N_of_digits_app, length_app. cbn [List.length].
    rewrite Nat2Z.inj_add. rewrite Z.pow_add_r by lia. change (10 ^ Z.of_nat 1) with 10.
    specialize (IH Hr). unfold small in *. lia.
Qed.

Lemma N_of_digits_lower l : Forall small l -> l <> [] -> hd 0%N l <> 0%N ->
  10 ^ (Z.of_nat (List.length l) - 1) <= Z.of_N (N_of_digits l).
Proof.
  intros Hs Hne Hhd. destruct l as [|d r]; [contradiction|]. cbn [hd] in Hhd.
  rewrite N_of_digits_cons. cbn [List.length].
  replace (Z.of_nat (S (List.length r)) - 1) with (Z.of_nat (List.length r)) by lia.
  rewrite N2Z.inj_add, N2Z.inj_mul, pow10_Z by lia.
  assert (0 < 10 ^ Z.of_nat (List.length r)) by (apply Z.pow_pos_nonneg; lia).
  nia.
Qed.

Lemma N_of_digits_last l : Forall small l -> (N_of_digits l mod 10 = last l 0)%N.
Proof.
  induction l as [|d r IH] using rev_ind; intros H; [reflexivity|].
  apply Forall_app in H. destruct H as [Hr Hd]. inversion Hd; subst.
  rewrite N_of_digits_app, last_last. unfold small in *.
  rewrite N.add_comm, N.mul_comm, N.Div0.mod_add. apply N.mod_small. assumption.
Qed.

(** The integer part has no needless zero in front *)
Lemma plain_parts_head ds e :
  ds <> [] -> hd 0%N ds <> 0%N ->
  fst (plain_parts ds e) = [0%N] \/ hd 0%N (fst (plain_parts ds e)) <> 0%N.
Proof.
  intros Hne Hhd. unfold plain_parts.
  destruct (e >=? 0) eqn:E0; [|destruct (_ <=? 0) eqn:E1]; cbn [fst].
  - right. destruct ds; [contradiction | exact Hhd].
  - left. reflexivity.
  - right. apply Z.leb_gt in E1. destruct ds as [|d r]; [contradiction|].
    destruct (Z.to_nat (e + Z.of_nat (List.length (d :: r)))) eqn:Ek; [lia|].
    exact Hhd.
Qed.

Lemma numeral_length s ip fp :
  len (numeral s ip fp)
  = len (sign_str s) + Z.of_nat (List.length ip)
    + match fp with [] => 0 | _ => 1 + Z.of_nat (List.length fp) end.
Proof.
  unfold numeral, len. rewrite !length_app, length_map.
  destruct fp as [|d r]; cbn [List.length map]; rewrite ?length_map; lia.
Qed.

(** Values that compare equal, brought to one scale *)
Lemma padded_to_scaled (c1 c2 : N) (e1 e2 K : Z) :
  0 <= e1 + K -> 0 <= e2 + K ->
  (c1 * pow10 (e1 - e2) = c2 * pow10 (e2 - e1))%N ->
  Z.of_N c1 * 10 ^ (e1 + K) = Z.of_N c2 * 10 ^ (e2 + K).
Proof.
  intros H1 H2 H. apply (f_equal Z.of_N) in H. rewrite !N2Z.inj_mul in H.
  destruct (Z_le_gt_dec e2 e1) as [Hle|Hgt].
  - rewrite (pow10_neg (e2 - e1)) in H by lia. rewrite pow10_Z in H by lia.
    replace (e1 + K) with ((e1 - e2) + (e2 + K)) by lia.
    rewrite (Z.pow_add_r 10 (e1 - e2) (e2 + K)) by lia. change (Z.of_N 1) with 1 in H.
    rewrite Z.mul_assoc, H. lia.
  - rewrite (pow10_neg (e1 - e2)) in H by lia. rewrite pow10_Z in H by lia.
    replace (e2 + K) with ((e2 - e1) + (e1 + K)) by lia.
    rewrite (Z.pow_add_r 10 (e2 - e1) (e1 + K)) by lia. change (Z.of_N 1) with 1 in H.
    rewrite Z.mul_assoc, <- H. lia.
Qed.

(** Among the numerals of one number, the one without needless zeros has
    the fewest digits on both sides of the point *)
Lemma canonical_shortest ip fp ip' fp' :
  ip <> [] -> Forall small ip -> Forall small fp ->
  (ip = [0%N] \/ hd 0%N ip <> 0%N) -> (fp <> [] -> last fp 0%N <> 0%N) ->
  ip' <> [] -> Forall small ip' -> Forall small fp' ->
  Z.of_N (N_of_digits (ip' ++ fp')) * 10 ^ Z.of_nat (List.length fp)
  = Z.of_N (N_of_digits (ip ++ fp)) * 10 ^ Z.of_nat (List.length fp') ->
  (List.length ip <= List.length ip')%nat /\ (List.length fp <= List.length fp')%nat.
Proof.
  intros Hne Hi Hf Hhd Hlast Hne' Hi' Hf' Heq.
  set (F0 := Z.of_nat (List.length fp)) in *.
  set (F1 := Z.of_nat (List.length fp')) in *.
  assert (HF : F0 <= F1).
  { destruct (Z_le_gt_dec F0 F1) as [H|H]; [exact H|]. exfalso.
    assert (Hfp : fp <> []) by (intros ->; unfold F0, F1 in H; cbn in H; lia).
    assert (Hm : (N_of_digits (ip ++ fp) mod 10 = last fp 0)%N).
    { rewrite N_of_digits_last by (apply Forall_app; split; assumption).
      apply last_append. exact Hfp. }
    specialize (Hlast Hfp).
    replace F0 with (F1 + ((F0 - F1 - 1) + 1)) in Heq by lia.
    rewrite !Z.pow_add_r in Heq by lia. change (10 ^ 1) with 10 in Heq.
    assert (Hp1 : 0 < 10 ^ F1) by (apply Z.pow_pos_nonneg; unfold F1; lia).
    assert (Hc0 : Z.of_N (N_of_digits (ip ++ fp))
                  = (Z.of_N (N_of_digits (ip' ++ fp')) * 10 ^ (F0 - F1 - 1)) * 10).
    { apply (Z.mul_reg_r _ _ (10 ^ F1)); [lia|]. rewrite <- Heq. ring. }
    assert (Hz : Z.of_N (N_of_digits (ip ++ fp) mod 10) = 0).
    { rewrite N2Z.inj_mod. rewrite Hc0. apply Z.mod_mul. lia. }
    rewrite Hm in Hz. lia. }
  split; [|unfold F0, F1 in HF; lia].
  rewrite !N_of_digits_app_gen in Heq. rewrite !N2Z.inj_add, !N2Z.inj_mul in Heq.
  rewrite !pow10_Z in Heq by lia. fold F0 F1 in Heq.
  pose proof (N_of_digits_upper fp Hf) as Hr0. fold F0 in Hr0.
  pose proof (N_of_digits_upper fp' Hf') as Hr1. fold F1 in Hr1.
  pose proof (N_of_digits_upper ip' Hi') as Hu1.
  set (I0 := Z.of_N (N_of_digits ip)) in *.
  set (I1 := Z.of_N (N_of_digits ip')) in *.
  set (R0 := Z.of_N (N_of_digits fp)) in *.
  set (R1 := Z.of_N (N_of_digits fp')) in *.
  assert (Hp0 : 0 < 10 ^ F0) by (apply Z.pow_pos_nonneg; unfold F0; lia).
  assert (Hp1 : 0 < 10 ^ F1) by (apply Z.pow_pos_nonneg; unfold F1; lia).
  assert (HR0 : 0 <= R0) by (unfold R0; lia).
  assert (HR1 : 0 <= R1) by (unfold R1; lia).
  assert (HI : I0 = I1).
  { set (P := 10 ^ F0 * 10 ^ F1).
    assert (HP : 0 < P) by (unfold P; nia).
    assert (E : I1 * P + R1 * 10 ^ F0 = I0 * P + R0 * 10 ^ F1) by (unfold P; lia).
    assert (B1 : 0 <= R1 * 10 ^ F0 < P) by (unfold P; nia).
    assert (B0 : 0 <= R0 * 10 ^ F1 < P) by (unfold P; nia).
    nia. }
  destruct Hhd as [->|Hhd].
  - destruct ip'; [contradiction|]. cbn [List.length]. lia.
  - pose proof (N_of_digits_lower ip Hi Hne Hhd) as Hl0. fold I0 in Hl0.
    rewrite HI in Hl0.
    assert (Hlt : 10 ^ (Z.of_nat (List.length ip) - 1) < 10 ^ Z.of_nat (List.length ip')) by lia.
    apply Z.pow_lt_mono_r_iff in Hlt; lia.
Qed.

(** ** Reading any string of digits, ['-'] and ['.'] *)

Lemma plain_cases c : plain_char c = true ->
  (c = 45%N \/ c = 46%N) \/
  (c = 48%N \/ c = 49%N \/ c = 50%N \/ c = 51%N \/ c = 52%N) \/
  (c = 53%N \/ c = 54%N \/ c = 55%N \/ c = 56%N \/ c = 57%N).
Proof.
  unfold plain_char, is_ascii_digit. intros H.
  repeat (apply orb_prop in H; destruct H as [H|H]).
  - apply andb_prop in H. destruct H as [H1 H2]. apply N.leb_le in H1, H2. lia.
  - apply N.eqb_eq in H. lia.
  - apply N.eqb_eq in H. lia.
Qed.

Ltac plain_enum H :=
  destruct (plain_cases _ H)
    as [[->| ->]|[[->|[->|[->|[->| ->]]]]|[->|[->|[->|[->| ->]]]]]].

Lemma parse_exponent_plain c r : plain_char c = true -> parse_exponent (c :: r) = None.
Proof. intros H. plain_enum H; reflexivity. Qed.

Lemma parse_decimal_unsigned c r :
  plain_char c = true -> c <> 45%N ->
  parse_decimal (c :: r) = parse_finite false (c :: r).
Proof.
  intros H Hc. unfold parse_decimal.
  change (py "inf") with [105; 110; 102]%N.
  change (py "infinity") with [105; 110; 102; 105; 110; 105; 116; 121]%N.
  plain_enum H; try contradiction;
    cbn [map to_lower N.leb N.compare Pos.compare Pos.compare_cont andb];
    rewrite !pystr_eqb_head_ne by discriminate; reflexivity.
Qed.

Lemma parse_decimal_minus r :
  forallb plain_char r = true ->
  parse_decimal (45%N :: r) = parse_finite true r.
Proof.
  intros H. unfold parse_decimal.
  change (py "inf") with [105; 110; 102]%N.
  change (py "infinity") with [105; 110; 102; 105; 110; 105; 116; 121]%N.
  cbv iota beta.
  destruct r as [|c r]; [reflexivity|].
  cbn [forallb] in H. apply andb_prop in H. destruct H as [H _].
  plain_enum H;
    cbn [map to_lower N.leb N.compare Pos.compare Pos.compare_cont andb];
    rewrite !pystr_eqb_head_ne by discriminate; reflexivity.
Qed.

Lemma span_digits_inv t :
  forallb plain_char t = true ->
  exists ds rest, span_digits t = (ds, rest) /\ t = map digit_char ds ++ rest /\
                  Forall small ds /\ stops rest /\ forallb plain_char rest = true.
Proof.
  induction t as [|c r IH]; intros H.
  - exists [], []. repeat split; constructor.
  - cbn [forallb] in H. apply andb_prop in H. destruct H as [Hc Hr].
    cbn [span_digits]. destruct (is_ascii_digit c) eqn:E.
    + destruct (IH Hr) as (ds & rest & Hs & Ht & Hsm & Hst & Hp).
      rewrite Hs. exists ((c - 48)%N :: ds), rest.
      unfold is_ascii_digit in E. apply andb_prop in E. destruct E as [E1 E2].
      apply N.leb_le in E1, E2.
      repeat split; try assumption.
      * cbn [map app]. rewrite <- Ht. f_equal. unfold digit_char. lia.
      * constructor; [unfold small; lia | exact Hsm].
    + exists [], (c :: r). repeat split; try constructor.
      * exact E.
      * cbn [forallb]. rewrite Hc, Hr. reflexivity.
Qed.

Lemma parse_finite_plain_inv sgn r y :
  forallb plain_char r = true -> parse_finite sgn r = Some y ->
  exists ip fp (dot : bool),
    r = map digit_char ip ++ (if dot then 46%N :: map digit_char fp else []) /\
    (dot = false -> fp = []) /\ Forall small ip /\ Forall small fp /\
    ip ++ fp <> [] /\
    y = Finite sgn (N_of_digits (ip ++ fp)) (- Z.of_nat (List.length fp)).
Proof.
  intros Hp. unfold parse_finite.
  destruct (span_digits_inv r Hp) as (ip & r1 & E1 & Hr & Hsi & Hst1 & Hp1).
  rewrite E1.
  destruct r1 as [|c r1'].
  - destruct (ip ++ []) as [|d0 l0] eqn:Eapp; [discriminate|].
    cbn [parse_exponent List.length].
    destruct (_ && _); [|discriminate]. intros Hy. injection Hy as <-.
    exists ip, [], false. rewrite Eapp.
    repeat split; try assumption; try constructor. discriminate.
  - cbn [forallb] in Hp1. apply andb_prop in Hp1. destruct Hp1 as [Hc Hp1].
    destruct (N.eq_dec c 46) as [->|Hne].
    + destruct (span_digits_inv r1' Hp1) as (fp & r2 & E2 & Hr2 & Hsf & Hst2 & Hp2).
      rewrite E2.
      destruct (ip ++ fp) as [|d0 l0] eqn:Eapp; [discriminate|].
      destruct r2 as [|c2 r2'].
      * cbn [parse_exponent].
        destruct (_ && _); [|discriminate]. intros Hy. injection Hy as <-.
        exists ip, fp, true. rewrite Eapp. rewrite app_nil_r in Hr2. subst r1'.
        repeat split; try assumption; try discriminate.
      * cbn [forallb] in Hp2. apply andb_prop in Hp2. destruct Hp2 as [Hc2 _].
        rewrite (parse_exponent_plain c2 r2' Hc2). discriminate.
    + intros Hy. exfalso. revert Hy.
      plain_enum Hc; try contradiction; cbv beta iota;
        destruct (ip ++ []) as [|d0 l0]; discriminate.
Qed.

(** A string of digits, ['-'] and ['.'] that [Decimal] accepts is a sign,
    digits, and possibly a point and digits, with a digit somewhere *)
Lemma Decimal_of_str_plain_inv t y :
  forallb plain_char t = true -> Decimal_of_str t = Return y ->
  exists ip fp (dot : bool),
    t = sign_str (sign_of y) ++ map digit_char ip
          ++ (if dot then 46%N :: map digit_char fp else []) /\
    (dot = false -> fp = []) /\ Forall small ip /\ Forall small fp /\
    ip ++ fp <> [] /\
    y = Finite (sign_of y) (N_of_digits (ip ++ fp)) (- Z.of_nat (List.length fp)).
Proof.
  intros Hp. unfold Decimal_of_str.
  rewrite (strip_plain _ Hp), (filter_plain _ Hp), (numeric_as_ascii_plain _ Hp).
  destruct t as [|c r]; [discriminate|].
  pose proof Hp as Hp'. cbn [forallb] in Hp'. apply andb_prop in Hp'.
  destruct Hp' as [Hc Hr].
  destruct (N.eq_dec c 45) as [->|Hne].
  - rewrite (parse_decimal_minus r Hr).
    destruct (parse_finite true r) as [d|] eqn:E; [|discriminate].
    intros Hy. injection Hy as <-.
    destruct (parse_finite_plain_inv true r d Hr E) as (ip & fp & dot & H1 & H2 & H3 & H4 & H5 & ->).
    exists ip, fp, dot. cbn [sign_of sign_str app]. rewrite <- H1.
    repeat split; assumption.
  - rewrite (parse_decimal_unsigned c r Hc Hne).
    destruct (parse_finite false (c :: r)) as [d|] eqn:E; [|discriminate].
    intros Hy. injection Hy as <-.
    destruct (parse_finite_plain_inv false (c :: r) d Hp E) as (ip & fp & dot & H1 & H2 & H3 & H4 & H5 & ->).
    exists ip, fp, dot. cbn [sign_of sign_str app]. rewrite <- H1.
    repeat split; assumption.
Qed.

(** Two numerals of one number, brought to one scale *)
Lemma same_value_scaled s0 s1 s (c : N) (e : Z) (C0 C1 : N) (F0 F1 : nat) :
  c <> 0%N ->
  _cmp (Finite s0 C0 (- Z.of_nat F0)) (Finite s c e) = 0 ->
  _cmp (Finite s1 C1 (- Z.of_nat F1)) (Finite s c e) = 0 ->
  Z.of_N C1 * 10 ^ Z.of_nat F0 = Z.of_N C0 * 10 ^ Z.of_nat F1.
Proof.
  intros Hc H0 H1.
  apply cmp_zero_inv in H0. destruct H0 as [[_ Hz]|(_ & _ & _ & H0)]; [contradiction|].
  apply cmp_zero_inv in H1. destruct H1 as [[_ Hz]|(_ & _ & _ & H1)]; [contradiction|].
  set (D := Z.max 0 (- e)).
  set (K := Z.of_nat F0 + Z.of_nat F1 + D).
  apply (padded_to_scaled _ _ _ _ K) in H0; [|unfold K, D; lia|unfold K, D; lia].
  apply (padded_to_scaled _ _ _ _ K) in H1; [|unfold K, D; lia|unfold K, D; lia].
  rewrite <- H0 in H1.
  replace (- Z.of_nat F1 + K) with (Z.of_nat F0 + D) in H1 by (unfold K; lia).
  replace (- Z.of_nat F0 + K) with (Z.of_nat F1 + D) in H1 by (unfold K; lia).
  rewrite !Z.pow_add_r in H1 by (unfold D; lia).
  assert (HD : 0 < 10 ^ D) by (apply Z.pow_pos_nonneg; unfold D; lia).
  apply (Z.mul_reg_r _ _ (10 ^ D)); [lia|].
  rewrite <- !Z.mul_assoc. exact H1.
Qed.

Lemma plain_length s ip fp (dot : bool) :
  len (sign_str s ++ map digit_char ip ++ (if dot then 46%N :: map digit_char fp else []))
  = len (sign_str s) + Z.of_nat (List.length ip)
    + (if dot then 1 + Z.of_nat (List.length fp) else 0).
Proof.
  unfold len. rewrite !length_app, length_map.
  destruct dot; cbn [List.length]; rewrite ?length_map; lia.
Qed.

(** No string of digits, ['-'] and ['.'] that reads back to the value is
    shorter than its numeral without needless zeros, unless it begins with
    the point, and then by one character *)
Lemma no_shorter_plain ctx s c e ip fp t y' :
  ip <> [] -> Forall small ip -> Forall small fp ->
  (ip = [0%N] \/ hd 0%N ip <> 0%N) -> (fp <> [] -> last fp 0%N <> 0%N) ->
  c <> 0%N ->
  _cmp (Finite s (N_of_digits (ip ++ fp)) (- Z.of_nat (List.length fp))) (Finite s c e) = 0 ->
  forallb plain_char t = true -> Decimal_of_str t = Return y' ->
  sign_of y' = s -> dec_eq ctx y' (Finite s c e) = Return true ->
  len (numeral s ip fp) <= len t + 1 /\
  ((forall r, t <> sign_str s ++ 46%N :: r) -> len (numeral s ip fp) <= len t).
Proof.
  intros Hne Hi Hf Hhd Hlast Hc H0 Hp Hd Hs Heq.
  destruct (Decimal_of_str_plain_inv t y' Hp Hd)
    as (ip' & fp' & dot & Ht & Hdot & Hi' & Hf' & Hne' & Hy).
  rewrite Hs in Ht, Hy. subst y'.
  unfold dec_eq in Heq. cbn [_check_nans] in Heq.
  injection Heq as Heq. apply Z.eqb_eq in Heq.
  pose proof (same_value_scaled _ _ _ _ _ _ _ _ _ Hc H0 Heq) as Hv.
  set (ip'' := match ip' with [] => [0%N] | _ => ip' end).
  assert (Hv'' : N_of_digits (ip'' ++ fp') = N_of_digits (ip' ++ fp')).
  { unfold ip''. destruct ip'; [|reflexivity].
    cbn [app]. rewrite N_of_digits_cons. lia. }
  assert (Hne'' : ip'' <> []) by (unfold ip''; destruct ip'; discriminate).
  assert (Hi'' : Forall small ip'').
  { unfold ip''. destruct ip'; [|exact Hi'].
    constructor; [unfold small; lia | constructor]. }
  rewrite <- Hv'' in Hv.
  destruct (canonical_shortest ip fp ip'' fp' Hne Hi Hf Hhd Hlast Hne'' Hi'' Hf' Hv)
    as [L1 L2].
  clear Heq Hv Hv'' H0 Hd.
  assert (Hip' : (forall r, t <> sign_str s ++ 46%N :: r) -> ip' <> []).
  { intros Hnp ->. destruct dot.
    - apply (Hnp (map digit_char fp')). rewrite Ht. reflexivity.
    - apply Hne'. rewrite (Hdot eq_refl). reflexivity. }
  rewrite numeral_length. rewrite Ht at 1 2. rewrite !plain_length.
  assert (Hfrac : match fp with [] => 0 | _ => 1 + Z.of_nat (List.length fp) end
                  <= (if dot then 1 + Z.of_nat (List.length fp') else 0)).
  { destruct fp as [|d r]; cbv iota beta; [destruct dot; lia|].
    destruct dot; [lia|]. rewrite (Hdot eq_refl) in L2. cbn in L2. lia. }
  set (A := match fp with [] => 0 | _ => 1 + Z.of_nat (List.length fp) end) in *.
  set (B := if dot then 1 + Z.of_nat (List.length fp') else 0) in *.
  split.
  - unfold ip'' in L1. destruct ip'; cbn [List.length] in *; lia.
  - intros Hnp. specialize (Hip' Hnp).
    unfold ip'' in L1. destruct ip'; [contradiction|]. cbn [List.length] in *. lia.
Qed.

Lemma plain_at_least_one_digit t y :
  forallb plain_char t = true -> Decimal_of_str t = Return y ->
  len (sign_str (sign_of y)) + 1 <= len t.
Proof.
  intros Hp Hd.
  destruct (Decimal_of_str_plain_inv t y Hp Hd)
    as (ip' & fp' & dot & Ht & Hdot & _ & _ & Hne' & _).
  rewrite Ht at 1. rewrite plain_length.
  destruct ip'; destruct dot; cbn [List.length]; try lia.
  exfalso. apply Hne'. rewrite (Hdot eq_refl). reflexivity.
Qed.

(** C9, as stated, fails: a negative zero, as [0*-1] yields, formats as
    ["-0"], not ["0"]; a value with more digits than the thread's
    precision is rounded by [normalize()] before it is printed, so that
    reading the string back gives another number; and the output is not the
    shortest string of the value: one half prints as ["0.5"], and
    [Decimal(".5")] is the same number. *)
Lemma C9_negative_zero_and_rounding :
  evaluate refusing (py "0*-1") initial_world = (Some (Return (py "-0")), initial_world) /\
  format_decimal default_context (Finite true 0 0) = Return (py "-0") /\
  format_decimal (mkContext 16 ROUND_HALF_EVEN) (Finite false 12345678901234567 0)
    = Return (py "12345678901234570") /\
  Decimal_of_str (py "12345678901234570") = Return (Finite false 12345678901234570 0) /\
  dec_eq (mkContext 16 ROUND_HALF_EVEN) (Finite false 12345678901234570 0)
    (Finite false 12345678901234567 0) = Return false /\
  format_decimal default_context (Finite false 5 (-1)) = Return (py "0.5") /\
  Decimal_of_str (py ".5") = Return (Finite false 5 (-1)).
Proof.
  repeat apply conj; vm_compute; reflexivity.
Qed.

(** C9, amended.  For every finite Decimal that the thread's context holds
    without rounding, [format_decimal] returns the plain numeral of the
    value: an optional ['-'], at least one digit, and possibly a ['.']
    followed by digits, with no exponent; the integer part is ["0"] or
    begins with a digit other than ['0'], there is no ['.'] at the end and,
    when there is a ['.'], no ['0'] at the end.  [Decimal(...)] of that
    string has the sign of the value and compares equal to it.  It is the
    shortest such string but for the zero before the point: no string of
    digits, ['-'] and ['.'] that [Decimal] reads back to the value with its
    sign is shorter, unless it begins, after the sign, with the point, and
    then it is one character shorter at most.  A zero formats as ["0"], or
    as ["-0"] when its sign is negative.  The strings ["3.000"] and
    ["3.1400"] come back as ["3"] and ["3.14"]. *)
Theorem C9_format_of_values_that_fit (ctx : Context) (s : bool) (c : N) (e : Z)
        (Hctx : 1 <= prec ctx <= MAX_PREC) (Hfit : fits ctx c e) :
  (exists out y ip fp,
    format_decimal ctx (Finite s c e) = Return out /\
    forallb plain_char out = true /\
    last out 0%N <> 46%N /\
    (contains 46 out = true -> last out 0%N <> 48%N) /\
    Decimal_of_str out = Return y /\
    sign_of y = s /\
    dec_eq ctx y (Finite s c e) = Return true /\
    (c = 0%N -> out = if s then py "-0" else py "0") /\
    out = numeral s ip fp /\ ip <> [] /\ Forall small ip /\ Forall small fp /\
    (ip = [0%N] \/ hd 0%N ip <> 0%N) /\
    (fp <> [] -> last fp 0%N <> 0%N) /\
    (forall t y', forallb plain_char t = true -> Decimal_of_str t = Return y' ->
       sign_of y' = s -> dec_eq ctx y' (Finite s c e) = Return true ->
       len out <= len t + 1 /\
       ((forall r, t <> sign_str s ++ 46%N :: r) -> len out <= len t))) /\
  bind (Decimal_of_str (py "3.000")) (format_decimal default_context) = Return (py "3") /\
  bind (Decimal_of_str (py "3.1400")) (format_decimal default_context) = Return (py "3.14").
Proof.
  split; [|split; vm_compute; reflexivity].
  destruct (N.eq_dec c 0) as [->|Hc].
  - exists (if s then py "-0" else py "0"), (Finite s 0 0), [0%N], [].
    rewrite format_decimal_zero.
    assert (Hshort : forall t y', forallb plain_char t = true ->
              Decimal_of_str t = Return y' -> sign_of y' = s ->
              len (if s then py "-0" else py "0") <= len t).
    { intros t y' Hp Hd Hs. pose proof (plain_at_least_one_digit t y' Hp Hd) as H.
      rewrite Hs in H. destruct s; exact H. }
    refine (conj eq_refl (conj _ (conj _ (conj _ (conj _ (conj eq_refl (conj _
             (conj _ (conj _ (conj _ (conj _ (conj _ (conj _ (conj _ _)))))))))))))).
    + destruct s; reflexivity.
    + destruct s; vm_compute; discriminate.
    + destruct s; vm_compute; discriminate.
    + destruct s; reflexivity.
    + destruct s; reflexivity.
    + reflexivity.
    + destruct s; reflexivity.
    + discriminate.
    + constructor; [unfold small; lia | constructor].
    + constructor.
    + left. reflexivity.
    + intros H. contradiction.
    + intros t y' Hp Hd Hs _. pose proof (Hshort t y' Hp Hd Hs). split; [lia | intros _; lia].
  - destruct (format_decimal_fits ctx s c e Hc Hfit)
      as (c' & e' & ds & Hle & Hval & Hpos & Hne & Hsmall & Hds & Hlen & Hlast & Hhd & Hfmt).
    set (ip := fst (plain_parts ds e')) in *.
    set (fp := snd (plain_parts ds e')) in *.
    assert (Hip : ip <> []) by (apply plain_parts_int_nonempty; exact Hne).
    destruct (plain_parts_small ds e' Hsmall) as [Hsi Hsf]. fold ip in Hsi. fold fp in Hsf.
    assert (Hfl : fp <> [] -> last fp 0%N <> 0%N).
    { intros Hf. unfold fp. rewrite plain_parts_last by assumption. exact Hlast. }
    assert (Hih : ip = [0%N] \/ hd 0%N ip <> 0%N).
    { unfold ip. apply plain_parts_head; assumption. }
    assert (Hv : N_of_digits (ip ++ fp) = (c' * pow10 e')%N).
    { unfold ip, fp. rewrite plain_parts_value, Hds. reflexivity. }
    assert (Hx : - Z.of_nat (List.length fp) = Z.min e' 0).
    { unfold fp. apply plain_parts_frac_length. }
    destruct Hfit as (Hd & He & Ha). unfold adjusted in Ha.
    assert (Hnd : ndigits c = ndigits c' + (e' - e)).
    { rewrite Hval at 1. apply ndigits_shift; lia. }
    assert (Hpe : (0 < pow10 e')%N) by apply pow10_pos.
    assert (Hnp : ndigits (c' * pow10 e') = ndigits c' + Z.max e' 0).
    { destruct (Z_le_gt_dec 0 e').
      - rewrite ndigits_shift by lia. lia.
      - rewrite pow10_neg by lia. rewrite N.mul_1_r. lia. }
    assert (Hcmp : _cmp (Finite s (c' * pow10 e') (Z.min e' 0)) (Finite s c e) = 0).
    { rewrite cmp_same_value; [reflexivity | lia | lia |].
      rewrite Hval.
      apply N2Z.inj. rewrite !N2Z.inj_mul.
      destruct (Z_le_gt_dec 0 e') as [H0|H0].
      * rewrite Z.min_r by lia.
        destruct (Z_le_gt_dec 0 e) as [H1|H1].
        -- rewrite (pow10_neg (0 - e)) by lia.
           rewrite !pow10_Z by lia.
           replace (e - 0) with e by lia.
           replace e' with ((e' - e) + e) at 1 by lia.
           rewrite Z.pow_add_r by lia. lia.
        -- rewrite (pow10_neg (e - 0)) by lia.
           rewrite !pow10_Z by lia.
           replace (e' - e) with (e' + (0 - e)) by lia.
           rewrite Z.pow_add_r by lia. lia.
      * rewrite Z.min_l by lia.
        rewrite (pow10_neg e') by lia. rewrite (pow10_neg (e - e')) by lia. lia. }
    exists (numeral s ip fp), (Finite s (c' * pow10 e') (Z.min e' 0)), ip, fp.
    refine (conj Hfmt (conj _ (conj _ (conj _ (conj _ (conj eq_refl (conj _
             (conj _ (conj eq_refl (conj Hip (conj Hsi (conj Hsf (conj Hih (conj Hfl _)))))))))))))).
    + apply numeral_plain; assumption.
    + apply (numeral_last s ip fp Hip Hfl).
    + apply (numeral_last s ip fp Hip Hfl).
    + rewrite Decimal_of_str_numeral; try assumption.
      * rewrite Hv, Hx. reflexivity.
      * rewrite Hx. unfold Etiny, Emin, MIN_ETINY, MAX_PREC in *. lia.
      * rewrite Hv, Hx. unfold adjusted. rewrite Hnp.
        unfold Emax, MAX_EMAX in *. lia.
    + unfold dec_eq. cbn [_check_nans]. rewrite Hcmp. reflexivity.
    + intros Hz. contradiction.
    + intros t y' Hp Hdec Hs Heq.
      apply (no_shorter_plain ctx s c e ip fp t y'); try assumption.
      rewrite Hv, Hx. exact Hcmp.
Qed.

Lemma C9_format_of_values_that_fit_witness :
  format_decimal default_context (Finite false 31400 (-4)) = Return (py "3.14") /\
  forallb plain_char (py "3.14") = true /\
  Decimal_of_str (py "3.14") = Return (Finite false 314 (-2)) /\
  dec_eq default_context (Finite false 314 (-2)) (Finite false 31400 (-4)) = Return true /\
  (forall t y', forallb plain_char t = true -> Decimal_of_str t = Return y' ->
     sign_of y' = false ->
     dec_eq default_context y' (Finite false 31400 (-4)) = Return true ->
     len (py "3.14") <= len t + 1 /\
     ((forall r, t <> 46%N :: r) -> len (py "3.14") <= len t)).
Proof.
  destruct (proj1 (C9_format_of_values_that_fit default_context false 31400 (-4)
                     ltac:(split; vm_compute; discriminate)
                     ltac:(repeat split; vm_compute; discriminate)))
    as (out & y & ip & fp & Hfmt & Hplain & _ & _ & Hread & _ & Heq & _ & _ & _ & _ & _ & _ & _ & Hmin).
  assert (E : format_decimal default_context (Finite false 31400 (-4)) = Return (py "3.14"))
    by (vm_compute; reflexivity).
  rewrite E in Hfmt. injection Hfmt as <-.
  assert (Ey : Decimal_of_str (py "3.14") = Return (Finite false 314 (-2)))
    by (vm_compute; reflexivity).
  rewrite Ey in Hread. injection Hread as <-.
  exact (conj E (conj Hplain (conj Ey (conj Heq Hmin)))).
Defined.

(** * Further properties *)




(** ** Operators *)







(** ** Names and calls *)








(** ** Literals *)




(** ** Constants *)


(** ** Surrounding white space *)









(** ** Precision *)


(** ** Rounding *)


(** ** Functions *)


(** ** The register *)

